(** * The OAuth provider of the recipe MCP server (src/lib/oauth-provider.js)

    A shallow embedding of [SupabaseClientsStore] and [SupabaseOAuthProvider]
    over a model of the three Postgres tables they read and write, followed by
    the properties of the token life cycle.

    Conventions.
    - A table is a finite map from its primary key to the remaining columns
      (the schema declares [client_id], [code] and [token] as primary keys).
    - Instants ([Date] values, [TIMESTAMPTZ] columns) are integers: milliseconds
      since the epoch.  [toISOString] followed by [new Date(...)] is the
      identity on them.
    - [crypto.randomUUID()], [crypto.randomBytes(32).toString('hex')] and every
      reading of the clock are arguments of the operation that draws them, in
      the order in which the source draws them.
    - An [async] method is a function from the store to an outcome (a returned
      value or a thrown error) and the store it leaves behind; what was written
      before a [throw] stays written.
    - The storage service answers every call: the only errors it reports are
      the integrity violations of the schema (a primary key that is taken, a
      foreign key that dangles). *)

From Stdlib Require Import ZArith Lia Ascii.
From stdpp Require Import base option strings list gmap.

Local Open Scope string_scope.
Local Open Scope Z_scope.

(** ** JavaScript idioms *)

(** [x || null] on a nullable string: the empty string is falsy. *)
Definition or_null (x : option string) : option string :=
  match x with
  | Some "" => None
  | _ => x
  end.

(** [x || d] on a nullable string. *)
Definition or_string (x : option string) (d : string) : string :=
  match or_null x with
  | Some s => s
  | None => d
  end.

(** [x || []] on a nullable array: every array, also the empty one, is truthy. *)
Definition or_empty {A} (x : option (list A)) : list A :=
  match x with
  | Some l => l
  | None => []
  end.

(** [a.join(' ')]. *)
Definition join_space (a : list string) : string := String.concat " " a.

(** ** The platform's URL objects

    [new URL(s)] throws a [TypeError] on a string that is no absolute URL
    ([URL_parse s = None]); [u.toString()] is the serialisation [URL_href];
    [u.searchParams.set(k, v)] and [u.searchParams.get(k)] act on the query. *)
Class WebURL := {
  URL : Type;
  URL_parse : string → option URL;
  URL_href : URL → string;
  searchParams_set : string → string → URL → URL;
  searchParams_get : string → URL → option string;
}.

(** What the URL standard guarantees and the proofs rely on. *)
Class WebURLLaws `{WebURL} := {
  href_parses : ∀ u, is_Some (URL_parse (URL_href u));
  href_nonempty : ∀ u, URL_href u ≠ "";
  get_set_eq : ∀ k v u, searchParams_get k (searchParams_set k v u) = Some v;
  get_set_ne : ∀ k k' v u,
    k ≠ k' → searchParams_get k' (searchParams_set k v u) = searchParams_get k' u;
}.

(** ** Rows of the three tables (src/unnamed/part_001) *)

(** [oauth_clients], keyed by [client_id]. *)
Module Client.
Record row := mk {
  client_secret : option string;
  client_id_issued_at : Z;
  client_secret_expires_at : Z;
  redirect_uris : list string;
  client_name : option string;
  token_endpoint_auth_method : string;
  grant_types : list string;
  response_types : list string;
  scope : option string;
}.
End Client.

(** [oauth_authorization_codes], keyed by [code]. *)
Module Code.
Record row := mk {
  client_id : string;
  redirect_uri : string;
  code_challenge : string;
  scopes : option (list string);
  state : option string;
  resource : option string;
  expires_at : Z;
}.
End Code.

(** [oauth_tokens], keyed by [token]. *)
Inductive token_kind := access | refresh.

Global Instance token_kind_eq_dec : EqDecision token_kind.
Proof. solve_decision. Defined.

Module Token.
Record row := mk {
  token_type : token_kind;
  client_id : string;
  scopes : option (list string);
  resource : option string;
  expires_at : Z;
  revoked : bool;
  related_token : option string;
}.

(** The effect of [.update({ revoked: true })] on one row. *)
Definition revoke (r : row) : row :=
  mk (token_type r) (client_id r) (scopes r) (resource r) (expires_at r)
     true (related_token r).

(** A row without the link to its sibling. *)
Definition unlink (r : row) : row :=
  mk (token_type r) (client_id r) (scopes r) (resource r) (expires_at r)
     (revoked r) None.
End Token.

Record Store := mkStore {
  oauth_clients : gmap string Client.row;
  oauth_authorization_codes : gmap string Code.row;
  oauth_tokens : gmap string Token.row;
}.

Definition empty_store : Store := mkStore ∅ ∅ ∅.

Definition set_clients (f : gmap string Client.row → gmap string Client.row)
    (s : Store) : Store :=
  mkStore (f (oauth_clients s)) (oauth_authorization_codes s) (oauth_tokens s).

Definition set_codes (f : gmap string Code.row → gmap string Code.row)
    (s : Store) : Store :=
  mkStore (oauth_clients s) (f (oauth_authorization_codes s)) (oauth_tokens s).

Definition set_tokens (f : gmap string Token.row → gmap string Token.row)
    (s : Store) : Store :=
  mkStore (oauth_clients s) (oauth_authorization_codes s) (f (oauth_tokens s)).

(** ** Objects exchanged with the caller *)

(** The client object handed to the provider; only [client_id] is read. *)
Record OAuthClient := mkClient {
  client_id : string;
  client_info : Client.row;
}.

(** The argument of [registerClient]. *)
Module Registration.
Record t := mk {
  redirect_uris : list string;
  client_name : option string;
  token_endpoint_auth_method : option string;
  grant_types : option (list string);
  response_types : option (list string);
  scope : option string;
}.
End Registration.

(** The [params] argument of [authorize]. *)
Module Params.
Record t `{WebURL} := mk {
  redirectUri : string;
  codeChallenge : string;
  scopes : option (list string);
  state : option string;
  resource : option URL;
}.
Arguments mk {_} _ _ _ _ _.
End Params.

(** The object returned by the two token exchanges. *)
Module Tokens.
Record t := mk {
  access_token : string;
  token_type : string;
  expires_in : Z;
  refresh_token : string;
  scope : string;
}.
End Tokens.

(** The object returned by [verifyAccessToken]. *)
Module AuthInfo.
Record t `{WebURL} := mk {
  token : string;
  clientId : string;
  scopes : list string;
  expiresAt : Z;
  resource : option URL;
}.
Arguments mk {_} _ _ _ _ _.
End AuthInfo.

(** ** Errors and the monad of [async] methods *)

(** One constructor per [throw] of the source, named after its message;
    [Invalid_URL] is the [TypeError] of [new URL]. *)
Inductive Error :=
  | Failed_to_register_client
  | Failed_to_store_authorization_code
  | Authorization_code_not_found
  | Authorization_code_expired
  | Failed_to_store_tokens
  | Invalid_refresh_token
  | Refresh_token_expired
  | Invalid_access_token
  | Access_token_expired
  | Invalid_URL.

(** The specification's taxonomy of failures; [Malformed] is for the
    [TypeError], which the taxonomy does not list. *)
Inductive ErrorKind := NotFound | Expired | InvalidToken | StorageError | Malformed.

Definition kind_of (e : Error) : ErrorKind :=
  match e with
  | Failed_to_register_client => StorageError
  | Failed_to_store_authorization_code => StorageError
  | Authorization_code_not_found => NotFound
  | Authorization_code_expired => Expired
  | Failed_to_store_tokens => StorageError
  | Invalid_refresh_token => NotFound
  | Refresh_token_expired => Expired
  | Invalid_access_token => InvalidToken
  | Access_token_expired => Expired
  | Invalid_URL => Malformed
  end.

Inductive Outcome (A : Type) :=
  | Return (a : A)
  | Throw (e : Error).
Arguments Return {A} a.
Arguments Throw {A} e.

Definition Async (A : Type) : Type := Store → Outcome A * Store.

Global Instance Async_ret : MRet Async := λ A a s, (Return a, s).

Global Instance Async_bind : MBind Async := λ A B k m s,
  match m s with
  | (Return a, s') => k a s'
  | (Throw e, s') => (Throw e, s')
  end.

Definition throw {A} (e : Error) : Async A := λ s, (Throw e, s).

(** [fails k o]: the call ended in a failure of kind [k]. *)
Definition fails {A} (k : ErrorKind) (o : Outcome A) : Prop :=
  ∃ e, o = Throw e ∧ kind_of e = k.

(** ** The query builder of the storage client *)

(** [.single()]: the row when the result has exactly one, an error otherwise;
    the callers test [error || !data] and so see one case. *)
Definition single {R} (rows : list R) : option R :=
  match rows with
  | [r] => Some r
  | _ => None
  end.

(** The rows selected by [.eq(<primary key>, k)] and further filters. *)
Definition rows_where {R} (t : gmap string R) (k : string) (filters : R → bool)
    : list R :=
  match t !! k with
  | Some r => if filters r then [r] else []
  | None => []
  end.

(** [.from(table).select(...).eq(pk, k)...single()]. *)
Definition select_single {R} (table : Store → gmap string R) (k : string)
    (filters : R → bool) : Async (option R) :=
  λ s, (Return (single (rows_where (table s) k filters)), s).

(** One [INSERT] statement of several rows: all of them or none; a primary key
    that is taken, in the table or earlier in the statement, is an error. *)
Fixpoint insert_rows {R} (rows : list (string * R)) (t : gmap string R)
    : option (gmap string R) :=
  match rows with
  | [] => Some t
  | (k, r) :: rows' =>
      match t !! k with
      | Some _ => None
      | None => insert_rows rows' (<[k := r]> t)
      end
  end.

(** [REFERENCES oauth_clients(client_id)]. *)
Definition references_client (s : Store) (c : string) : bool :=
  bool_decide (is_Some (oauth_clients s !! c)).

(** The inserts return [true] for the [error] the callers test. *)
Definition insert_client (k : string) (r : Client.row) : Async bool :=
  λ s, match insert_rows [(k, r)] (oauth_clients s) with
       | Some t => (Return false, set_clients (λ _, t) s)
       | None => (Return true, s)
       end.

Definition insert_code (k : string) (r : Code.row) : Async bool :=
  λ s, if references_client s (Code.client_id r)
       then match insert_rows [(k, r)] (oauth_authorization_codes s) with
            | Some t => (Return false, set_codes (λ _, t) s)
            | None => (Return true, s)
            end
       else (Return true, s).

Definition insert_tokens (rows : list (string * Token.row)) : Async bool :=
  λ s, if forallb (λ kr, references_client s (Token.client_id kr.2)) rows
       then match insert_rows rows (oauth_tokens s) with
            | Some t => (Return false, set_tokens (λ _, t) s)
            | None => (Return true, s)
            end
       else (Return true, s).

(** [.from('oauth_authorization_codes').delete().eq('code', k)]. *)
Definition delete_code (k : string) : Async () :=
  λ s, (Return (), set_codes (delete k) s).

(** [.update({ revoked: true }).eq('token', k).eq('client_id', c)]. *)
Definition revoke_where (k c : string) : Async () :=
  λ s, (Return (),
        set_tokens (alter (λ r, if bool_decide (Token.client_id r = c)
                                then Token.revoke r else r) k) s).

(** [.update({ revoked: true }).in('token', ks)]; a [null] in the list matches
    no row. *)
Definition revoke_in (ks : list (option string)) : Async () :=
  λ s, (Return (),
        set_tokens (λ t, foldr (alter Token.revoke) t (omap id ks)) s).

(** ** SupabaseClientsStore and SupabaseOAuthProvider *)

Section Provider.
Context `{WebURL}.

(** [getClient]: [undefined] when the select fails or finds nothing. *)
Definition getClient (clientId : string) : Async (option OAuthClient) :=
  data ← select_single oauth_clients clientId (λ _, true);
  match data with
  | None => mret None
  | Some data => mret (Some (mkClient clientId data))
  end.

(** [registerClient]; [clientId] and [clientSecret] are the two random draws,
    [date_now] is [Date.now()]. *)
Definition registerClient (client : Registration.t)
    (clientId clientSecret : string) (date_now : Z) : Async OAuthClient :=
  let now := date_now `div` 1000 in
  let record :=
    Client.mk (Some clientSecret) now 0
      (Registration.redirect_uris client)
      (or_null (Registration.client_name client))
      (or_string (Registration.token_endpoint_auth_method client)
         "client_secret_post")
      (match Registration.grant_types client with
       | Some g => g
       | None => ["authorization_code"]
       end)
      (match Registration.response_types client with
       | Some r => r
       | None => ["code"]
       end)
      (or_null (Registration.scope client)) in
  error ← insert_client clientId record;
  if error : bool then throw Failed_to_register_client
  else mret (mkClient clientId record).

(** [authorize]; [code] is the random draw and [date_now] is [Date.now()].
    The value returned is the location given to [res.redirect]. *)
Definition authorize (client : OAuthClient) (params : Params.t)
    (code : string) (date_now : Z) : Async string :=
  let expiresAt := date_now + 10 * 60 * 1000 in
  error ← insert_code code
    (Code.mk (client_id client)
       (Params.redirectUri params)
       (Params.codeChallenge params)
       (Some (or_empty (Params.scopes params)))
       (or_null (Params.state params))
       (match Params.resource params with
        | Some resource => Some (URL_href resource)
        | None => None
        end)
       expiresAt);
  if error : bool then throw Failed_to_store_authorization_code
  else
    match URL_parse (Params.redirectUri params) with
    | None => throw Invalid_URL
    | Some redirectUrl =>
        let redirectUrl := searchParams_set "code" code redirectUrl in
        let redirectUrl :=
          match or_null (Params.state params) with
          | Some state => searchParams_set "state" state redirectUrl
          | None => redirectUrl
          end in
        mret (URL_href redirectUrl)
    end.

(** [challengeForAuthorizationCode]. *)
Definition challengeForAuthorizationCode (client : OAuthClient)
    (authorizationCode : string) : Async string :=
  data ← select_single oauth_authorization_codes authorizationCode
           (λ r, bool_decide (Code.client_id r = client_id client));
  match data with
  | None => throw Authorization_code_not_found
  | Some data => mret (Code.code_challenge data)
  end.

(** The two rows of a pair and the [INSERT] that persists them, then the
    object returned: lines 130-168 of [exchangeAuthorizationCode] and lines
    195-235 of [exchangeRefreshToken], which differ only in the names of
    their variables.  [now] is the [new Date()] read after the two draws. *)
Definition issuePair (client : OAuthClient) (tokenScopes : list string)
    (resource : option string) (accessToken refreshToken : string) (now : Z)
    : Async Tokens.t :=
  let accessExpiry := now + 60 * 60 * 1000 in
  let refreshExpiry := now + 30 * 24 * 60 * 60 * 1000 in
  let tokenRecords :=
    [ (accessToken,
       Token.mk access (client_id client) (Some tokenScopes) resource
         accessExpiry false (Some refreshToken));
      (refreshToken,
       Token.mk refresh (client_id client) (Some tokenScopes) resource
         refreshExpiry false (Some accessToken)) ] in
  insertError ← insert_tokens tokenRecords;
  if insertError : bool then throw Failed_to_store_tokens
  else
    mret (Tokens.mk accessToken "bearer" 3600 refreshToken
            (join_space tokenScopes)).

(** Lines 112-128 of [exchangeAuthorizationCode]: find the code of this
    client, test its expiry against [now], delete it. *)
Definition redeemCode (client : OAuthClient) (authorizationCode : string)
    (now : Z) : Async Code.row :=
  data ← select_single oauth_authorization_codes authorizationCode
           (λ r, bool_decide (Code.client_id r = client_id client));
  match data with
  | None => throw Authorization_code_not_found
  | Some data =>
      if bool_decide (Code.expires_at data < now) then
        delete_code authorizationCode;;
        throw Authorization_code_expired
      else
        delete_code authorizationCode;;
        mret data
  end.

(** [exchangeAuthorizationCode]; [now_check] is the [new Date()] of the
    expiry test, [now_mint] the one the expiries are computed from. *)
Definition exchangeAuthorizationCode (client : OAuthClient)
    (authorizationCode codeVerifier redirectUri : string)
    (resource : option URL)
    (now_check : Z) (accessToken refreshToken : string) (now_mint : Z)
    : Async Tokens.t :=
  data ← redeemCode client authorizationCode now_check;
  issuePair client (or_empty (Code.scopes data)) (or_null (Code.resource data))
    accessToken refreshToken now_mint.

(** [exchangeRefreshToken]; the clock and the draws as above. *)
Definition exchangeRefreshToken (client : OAuthClient) (refreshToken : string)
    (scopes : option (list string)) (resource : option URL)
    (now_check : Z) (newAccessToken newRefreshToken : string) (now_mint : Z)
    : Async Tokens.t :=
  data ← select_single oauth_tokens refreshToken
           (λ r, bool_decide (Token.token_type r = refresh)
                 && bool_decide (Token.client_id r = client_id client)
                 && bool_decide (Token.revoked r = false));
  match data with
  | None => throw Invalid_refresh_token
  | Some data =>
      if bool_decide (Token.expires_at data < now_check) then
        throw Refresh_token_expired
      else
        revoke_in [Some refreshToken; Token.related_token data];;
        let tokenScopes :=
          match scopes with
          | Some scopes => scopes
          | None => or_empty (Token.scopes data)
          end in
        issuePair client tokenScopes (or_null (Token.resource data))
          newAccessToken newRefreshToken now_mint
  end.

(** [verifyAccessToken]; [now] is the [new Date()] of the expiry test. *)
Definition verifyAccessToken (token : string) (now : Z) : Async AuthInfo.t :=
  data ← select_single oauth_tokens token
           (λ r, bool_decide (Token.token_type r = access)
                 && bool_decide (Token.revoked r = false));
  match data with
  | None => throw Invalid_access_token
  | Some data =>
      let expiresAt := Token.expires_at data in
      if bool_decide (expiresAt < now) then throw Access_token_expired
      else
        match or_null (Token.resource data) with
        | None =>
            mret (AuthInfo.mk token (Token.client_id data)
                    (or_empty (Token.scopes data)) (expiresAt `div` 1000) None)
        | Some resource =>
            match URL_parse resource with
            | None => throw Invalid_URL
            | Some resource =>
                mret (AuthInfo.mk token (Token.client_id data)
                        (or_empty (Token.scopes data)) (expiresAt `div` 1000)
                        (Some resource))
            end
        end
  end.

(** [revokeToken]; [token] is [request.token]. *)
Definition revokeToken (client : OAuthClient) (token : string) : Async () :=
  revoke_where token (client_id client).

End Provider.

(** ** A small URL platform to run the provider on

    Only [https] URLs without a query parse; the query of a URL object is an
    association list on which [set] keeps the first pair of a name and drops
    the others, as the URL standard has it. *)
Module SimpleURL.
Record t := mk {
  host_path : string;
  query : list (string * string);
}.

Definition render_pair (p : string * string) : string := p.1 ++ "=" ++ p.2.

Definition href (u : t) : string :=
  "https://" ++ host_path u ++
    match query u with
    | [] => ""
    | q => "?" ++ String.concat "&" (render_pair <$> q)
    end.

Definition parse (s : string) : option t :=
  if String.prefix "https://" s
  then Some (mk (String.substring 8 (String.length s - 8) s) [])
  else None.

Fixpoint set_pair (k v : string) (q : list (string * string))
    : list (string * string) :=
  match q with
  | [] => [(k, v)]
  | p :: q' =>
      if String.eqb k p.1
      then (k, v) :: filter (λ p', negb (String.eqb k p'.1)) q'
      else p :: set_pair k v q'
  end.

Fixpoint get_pair (k : string) (q : list (string * string)) : option string :=
  match q with
  | [] => None
  | p :: q' => if String.eqb k p.1 then Some p.2 else get_pair k q'
  end.

Definition platform : WebURL :=
  {| URL := t;
     URL_parse := parse;
     URL_href := href;
     searchParams_set := λ k v u, mk (host_path u) (set_pair k v (query u));
     searchParams_get := λ k u, get_pair k (query u) |}.
End SimpleURL.

(** ** Stores the provider can reach *)

Section Reachable.
Context `{WebURL}.

(** What the provider writes in a [resource] column: [null], or the
    serialisation of a URL object. *)
Definition resource_ok (x : option string) : Prop :=
  match x with
  | None => True
  | Some x => x ≠ "" ∧ is_Some (URL_parse x)
  end.

(** What the provider writes in the code and token rows: an array of scopes
    and a resource as above. *)
Definition code_ok (r : Code.row) : Prop :=
  is_Some (Code.scopes r) ∧ resource_ok (Code.resource r).

Definition token_ok (r : Token.row) : Prop :=
  is_Some (Token.scopes r) ∧ resource_ok (Token.resource r).

Definition store_ok (s : Store) : Prop :=
  map_Forall (λ _, code_ok) (oauth_authorization_codes s)
  ∧ map_Forall (λ _, token_ok) (oauth_tokens s).

(** The calls a client of the provider can make, with the clock readings and
    random draws of each. *)
Inductive Request :=
  | GetClient (clientId : string)
  | RegisterClient (client : Registration.t) (clientId clientSecret : string)
      (date_now : Z)
  | Authorize (client : OAuthClient) (params : Params.t) (code : string)
      (date_now : Z)
  | ChallengeForAuthorizationCode (client : OAuthClient)
      (authorizationCode : string)
  | ExchangeAuthorizationCode (client : OAuthClient)
      (authorizationCode codeVerifier redirectUri : string)
      (resource : option URL) (now_check : Z)
      (accessToken refreshToken : string) (now_mint : Z)
  | ExchangeRefreshToken (client : OAuthClient) (refreshToken : string)
      (scopes : option (list string)) (resource : option URL) (now_check : Z)
      (newAccessToken newRefreshToken : string) (now_mint : Z)
  | VerifyAccessToken (token : string) (now : Z)
  | RevokeToken (client : OAuthClient) (token : string).

(** The store after a call, whatever its outcome. *)
Definition serve (q : Request) (s : Store) : Store :=
  match q with
  | GetClient i => (getClient i s).2
  | RegisterClient c i k t => (registerClient c i k t s).2
  | Authorize c p k t => (authorize c p k t s).2
  | ChallengeForAuthorizationCode c k =>
      (challengeForAuthorizationCode c k s).2
  | ExchangeAuthorizationCode c k v u r t a b t' =>
      (exchangeAuthorizationCode c k v u r t a b t' s).2
  | ExchangeRefreshToken c k sc r t a b t' =>
      (exchangeRefreshToken c k sc r t a b t' s).2
  | VerifyAccessToken k t => (verifyAccessToken k t s).2
  | RevokeToken c k => (revokeToken c k s).2
  end.

Definition serve_all (qs : list Request) (s : Store) : Store :=
  foldl (λ s q, serve q s) s qs.

(** The authorization code a call draws, if it draws one. *)
Definition draws_code (q : Request) : option string :=
  match q with
  | Authorize _ _ k _ => Some k
  | _ => None
  end.

End Reachable.

(** ** The scenario of the specification, on the small platform

    A client registers with redirect URI [https://app.example/cb], is
    authorized with challenge [abc] and scope [read] at instant 1000, and
    exchanges the code [C1] for the pair [A], [R] at instant 2000. *)
Module Scenario.
#[local] Existing Instance SimpleURL.platform.

Definition registration : Registration.t :=
  Registration.mk ["https://app.example/cb"] None None None None None.

Definition registered : Outcome OAuthClient * Store :=
  registerClient registration "client-1" "secret-1" 500 empty_store.

Definition client : OAuthClient :=
  mkClient "client-1"
    (Client.mk (Some "secret-1") 0 0 ["https://app.example/cb"] None
       "client_secret_post" ["authorization_code"] ["code"] None).

Definition other_client : OAuthClient :=
  mkClient "client-2" (client_info client).

Definition params : Params.t :=
  Params.mk "https://app.example/cb" "abc" (Some ["read"]) None None.

Definition authorized : Outcome string * Store :=
  authorize client params "C1" 1000 registered.2.

Definition exchanged : Outcome Tokens.t * Store :=
  exchangeAuthorizationCode client "C1" "verifier" "https://app.example/cb"
    None 2000 "A" "R" 2000 authorized.2.

(** The rows the scenario writes. *)
Definition code_row : Code.row :=
  Code.mk "client-1" "https://app.example/cb" "abc" (Some ["read"]) None None
    601000.

Definition access_row : Token.row :=
  Token.mk access "client-1" (Some ["read"]) None 3602000 false (Some "R").

Definition refresh_row : Token.row :=
  Token.mk refresh "client-1" (Some ["read"]) None 2592002000 false
    (Some "A").

(** Calls made after the exchange: a verification and a second
    authorization, which draws another code. *)
Definition later_calls : list Request :=
  [VerifyAccessToken "A" 3000; Authorize client params "C2" 4000].
End Scenario.

(** ** Shape of the token table *)

(** Two rows minted together: same client, scopes and resource, of different
    kinds, the refresh row expiring thirty days less one hour after the access
    row. *)
Definition sibling (r r' : Token.row) : Prop :=
  Token.client_id r = Token.client_id r'
  ∧ Token.scopes r = Token.scopes r'
  ∧ Token.resource r = Token.resource r'
  ∧ match Token.token_type r, Token.token_type r' with
    | access, refresh =>
        Token.expires_at r' = Token.expires_at r + 2588400000
    | refresh, access =>
        Token.expires_at r = Token.expires_at r' + 2588400000
    | _, _ => False
    end.

(** Every token row names, in [related_token], another row that names it back
    and is its sibling. *)
Definition paired_table (t : gmap string Token.row) : Prop :=
  ∀ k r, t !! k = Some r →
    ∃ k' r', Token.related_token r = Some k'
      ∧ k' ≠ k
      ∧ t !! k' = Some r'
      ∧ Token.related_token r' = Some k
      ∧ sibling r r'.

Definition paired (s : Store) : Prop := paired_table (oauth_tokens s).

(** A table obtained from another by revoking some of its rows. *)
Definition revoked_from (t t' : gmap string Token.row) : Prop :=
  ∀ k, t' !! k = t !! k
       ∨ ∃ r, t !! k = Some r ∧ t' !! k = Some (Token.revoke r).

(** Every code row and every token row belongs to a registered client. *)
Definition owned (s : Store) : Prop :=
  map_Forall (λ _ r, is_Some (oauth_clients s !! Code.client_id r))
    (oauth_authorization_codes s)
  ∧ map_Forall (λ _ r, is_Some (oauth_clients s !! Token.client_id r))
      (oauth_tokens s).

(** The row [authorize] inserts. *)
Definition code_row_of `{WebURL} (client : OAuthClient) (params : Params.t)
    (date_now : Z) : Code.row :=
  Code.mk (client_id client)
    (Params.redirectUri params)
    (Params.codeChallenge params)
    (Some (or_empty (Params.scopes params)))
    (or_null (Params.state params))
    (match Params.resource params with
     | Some resource => Some (URL_href resource)
     | None => None
     end)
    (date_now + 10 * 60 * 1000).

(** The client identifier and the code of a call that exchanges a code. *)
Definition redeems `{WebURL} (q : Request) : option (string * string) :=
  match q with
  | ExchangeAuthorizationCode c k _ _ _ _ _ _ _ => Some (client_id c, k)
  | _ => None
  end.

(** ** The part of a URL that [searchParams] leaves alone *)

(** The serialisation of a URL up to its query or fragment: scheme, host and
    path.  None of them contains a raw [?] or [#]. *)
Fixpoint origin_and_path (s : string) : string :=
  match s with
  | "" => ""
  | String a s' =>
      if Ascii.eqb a "?"%char || Ascii.eqb a "#"%char then ""
      else String a (origin_and_path s')
  end.

(** [u.searchParams.set(k, v)] writes to the query of [u] and to nothing
    else. *)
Class WebURLQueryLaws `{WebURL} := {
  set_keeps_origin_and_path : ∀ k v u,
    origin_and_path (URL_href (searchParams_set k v u))
      = origin_and_path (URL_href u);
}.

(** ** A platform that parses the query

    As the small platform, except that [parse] reads the pairs of the query,
    so that a redirect URI can come with parameters of its own.  Fragments
    and percent-encoding are left out. *)
Module QueryURL.
Fixpoint split_on (c : Ascii.ascii) (s : string) : list string :=
  match s with
  | "" => [""]
  | String a s' =>
      if Ascii.eqb a c then "" :: split_on c s'
      else match split_on c s' with
           | x :: xs => String a x :: xs
           | [] => [String a ""]
           end
  end.

Definition parse_pair (p : string) : string * string :=
  match split_on "="%char p with
  | k :: v => (k, String.concat "=" v)
  | [] => ("", "")
  end.

Definition parse_query (q : string) : list (string * string) :=
  parse_pair <$> filter (λ p, p ≠ "") (split_on "&"%char q).

Definition parse (s : string) : option SimpleURL.t :=
  if String.prefix "https://" s
  then match split_on "?"%char (String.substring 8 (String.length s - 8) s) with
       | hp :: q => Some (SimpleURL.mk hp (parse_query (String.concat "?" q)))
       | [] => None
       end
  else None.

Definition platform : WebURL :=
  {| URL := SimpleURL.t;
     URL_parse := parse;
     URL_href := SimpleURL.href;
     searchParams_set :=
       λ k v u, SimpleURL.mk (SimpleURL.host_path u)
                  (SimpleURL.set_pair k v (SimpleURL.query u));
     searchParams_get := λ k u, SimpleURL.get_pair k (SimpleURL.query u) |}.
End QueryURL.

(** ** Further calls on the scenario *)
Module Cases.
#[local] Existing Instance SimpleURL.platform.

(** A request whose redirect URI is no URL. *)
Definition bad_params : Params.t :=
  Params.mk "not a url" "abc" (Some ["read"]) None None.

(** The client rotates [R] at 5000 without asking for scopes. *)
Definition rotated : Outcome Tokens.t * Store :=
  exchangeRefreshToken Scenario.client "R" None None 5000 "A2" "R2" 5000
    Scenario.exchanged.2.

(** The calls that lead to the store in which [C1] is issued. *)
Definition calls_to_authorized : list Request :=
  [RegisterClient Scenario.registration "client-1" "secret-1" 500;
   Authorize Scenario.client Scenario.params "C1" 1000].

(** Calls that do not consume [C1]: an exchange by another client, a second
    authorization that draws [C1] again, a verification. *)
Definition harmless_calls : list Request :=
  [ExchangeAuthorizationCode Scenario.other_client "C1" "v" "u" None 1500 "X"
     "Y" 1500;
   Authorize Scenario.client Scenario.params "C1" 1600;
   VerifyAccessToken "A" 1700].

(** Calls after the exchange: the client revokes [A], then verifies it. *)
Definition revoke_calls : list Request :=
  [RevokeToken Scenario.client "A"; VerifyAccessToken "A" 3000].

(** A grant of two scopes: authorized with the code [C5] at 1000, exchanged
    for the pair [A], [R] at 2000. *)
Definition two_scope_params : Params.t :=
  Params.mk "https://app.example/cb" "abc" (Some ["read"; "write"]) None None.

Definition authorized_two : Outcome string * Store :=
  authorize Scenario.client two_scope_params "C5" 1000 Scenario.registered.2.

Definition exchanged_two : Outcome Tokens.t * Store :=
  exchangeAuthorizationCode Scenario.client "C5" "verifier"
    "https://app.example/cb" None 2000 "A" "R" 2000 authorized_two.2.

Definition code_row_two : Code.row :=
  Code.mk "client-1" "https://app.example/cb" "abc" (Some ["read"; "write"])
    None None 601000.

(** A request, on the platform that parses the query, whose redirect URI has
    a parameter of its own, with a state. *)
Definition tenant_params : @Params.t QueryURL.platform :=
  @Params.mk QueryURL.platform "https://app.example/cb?tenant=t1" "xyz" None
    (Some "s-1") None.
End Cases.

(** * Properties *)

(** ** The query builder *)

Lemma single_rows_where_Some {R} (t : gmap string R) k f r :
  single (rows_where t k f) = Some r ↔ t !! k = Some r ∧ f r = true.
Proof.
  unfold rows_where. destruct (t !! k) as [r'|]; [|by split; [|intros []]].
  destruct (f r') eqn:Hf; simpl; split; try done.
  - intros [= <-]. done.
  - by intros [? _].
  - intros [[= ->] ?]. congruence.
Qed.

Lemma single_rows_where_None {R} (t : gmap string R) k f :
  single (rows_where t k f) = None ↔ ∀ r, t !! k = Some r → f r = false.
Proof.
  unfold rows_where. destruct (t !! k) as [r'|]; [|by split].
  destruct (f r') eqn:Hf; simpl; split; try done.
  - intros Hall. specialize (Hall r' eq_refl). congruence.
  - by intros _ r [= <-].
Qed.

Lemma store_eta s :
  mkStore (oauth_clients s) (oauth_authorization_codes s) (oauth_tokens s) = s.
Proof. by destruct s. Qed.

Lemma set_codes_id f s :
  f (oauth_authorization_codes s) = oauth_authorization_codes s →
  set_codes f s = s.
Proof. unfold set_codes. intros ->. apply store_eta. Qed.

Lemma set_tokens_id f s :
  f (oauth_tokens s) = oauth_tokens s → set_tokens f s = s.
Proof. unfold set_tokens. intros ->. apply store_eta. Qed.

(** Unfolds the monad of [async] methods. *)
Ltac async :=
  unfold mbind, Async_bind, mret, Async_ret, throw, select_single,
    delete_code, revoke_where, revoke_in; simpl.

Section Properties.
Context {W : WebURL}.

(** ** Redemption of authorization codes *)

Lemma redeemCode_not_found client code now s :
  (∀ r, oauth_authorization_codes s !! code = Some r →
        Code.client_id r ≠ client_id client) →
  redeemCode client code now s = (Throw Authorization_code_not_found, s).
Proof.
  intros Hno. unfold redeemCode. async.
  destruct (single _) as [r|] eqn:Hsel; [|done].
  apply single_rows_where_Some in Hsel as [Hr Hc].
  apply bool_decide_eq_true in Hc. by destruct (Hno r).
Qed.

Lemma redeemCode_found client code now s r :
  oauth_authorization_codes s !! code = Some r →
  Code.client_id r = client_id client →
  redeemCode client code now s =
    (if bool_decide (Code.expires_at r < now)
     then Throw Authorization_code_expired else Return r,
     set_codes (delete code) s).
Proof.
  intros Hr Hc. unfold redeemCode. async.
  assert (single (rows_where (oauth_authorization_codes s) code
            (λ r, bool_decide (Code.client_id r = client_id client)))
          = Some r) as ->.
  { apply single_rows_where_Some. split; [done|]. by apply bool_decide_eq_true. }
  by case_bool_decide.
Qed.

(** Whatever a redemption finds, the code is in no row afterwards, unless
    it was not found. *)
Lemma redeemCode_removes client code now s :
  (redeemCode client code now s).1 ≠ Throw Authorization_code_not_found →
  oauth_authorization_codes (redeemCode client code now s).2 !! code = None.
Proof.
  intros Hfound.
  destruct (oauth_authorization_codes s !! code) as [r|] eqn:Hr.
  - destruct (decide (Code.client_id r = client_id client)) as [Hc|Hc].
    + rewrite (redeemCode_found _ _ _ _ r) by done. simpl.
      apply lookup_delete_eq.
    + rewrite redeemCode_not_found in Hfound; [done|]. naive_solver.
  - rewrite redeemCode_not_found in Hfound; [done|]. naive_solver.
Qed.

Lemma exchangeAuthorizationCode_unfold client code verifier uri res now a b
    now' s :
  exchangeAuthorizationCode client code verifier uri res now a b now' s =
    match redeemCode client code now s with
    | (Return data, s') =>
        issuePair client (or_empty (Code.scopes data))
          (or_null (Code.resource data)) a b now' s'
    | (Throw e, s') => (Throw e, s')
    end.
Proof. reflexivity. Qed.

Lemma exchange_not_found client code verifier uri res now a b now' s :
  (∀ r, oauth_authorization_codes s !! code = Some r →
        Code.client_id r ≠ client_id client) →
  exchangeAuthorizationCode client code verifier uri res now a b now' s
    = (Throw Authorization_code_not_found, s).
Proof.
  intros Hno. rewrite exchangeAuthorizationCode_unfold.
  by rewrite redeemCode_not_found.
Qed.

Lemma exchange_expired client code verifier uri res now a b now' s r :
  oauth_authorization_codes s !! code = Some r →
  Code.client_id r = client_id client →
  Code.expires_at r < now →
  exchangeAuthorizationCode client code verifier uri res now a b now' s
    = (Throw Authorization_code_expired, set_codes (delete code) s).
Proof.
  intros Hr Hc Hnow. rewrite exchangeAuthorizationCode_unfold.
  rewrite (redeemCode_found _ _ _ _ r) by done.
  by rewrite bool_decide_eq_true_2.
Qed.

(** The expiry test, literally: a code is refused when its expiry is
    strictly before the clock reading. *)
Lemma exchange_unexpired client code verifier uri res now a b now' s r :
  oauth_authorization_codes s !! code = Some r →
  Code.client_id r = client_id client →
  now ≤ Code.expires_at r →
  exchangeAuthorizationCode client code verifier uri res now a b now' s =
    issuePair client (or_empty (Code.scopes r)) (or_null (Code.resource r))
      a b now' (set_codes (delete code) s).
Proof.
  intros Hr Hc Hnow. rewrite exchangeAuthorizationCode_unfold.
  rewrite (redeemCode_found _ _ _ _ r) by done.
  by rewrite bool_decide_eq_false_2 by lia.
Qed.

(** C2 (as amended): [exchangeAuthorizationCode] fails with
    "Authorization code not found" and leaves the store alone when no row
    has both the code and the client's identifier; when a row has both and
    its expiry is strictly earlier than the clock reading, it deletes the
    row and fails with "Authorization code expired"; otherwise, that is from
    the instant of expiry backwards, it deletes the row and returns the row's
    fields to the minting step, which makes the pair from them. *)
Theorem exchangeAuthorizationCode_cases client code verifier uri res now a b
    now' s :
  ((¬ ∃ r, oauth_authorization_codes s !! code = Some r
           ∧ Code.client_id r = client_id client) →
   exchangeAuthorizationCode client code verifier uri res now a b now' s
     = (Throw Authorization_code_not_found, s))
  ∧ (∀ r, oauth_authorization_codes s !! code = Some r →
          Code.client_id r = client_id client →
      (Code.expires_at r < now →
       exchangeAuthorizationCode client code verifier uri res now a b now' s
         = (Throw Authorization_code_expired, set_codes (delete code) s))
      ∧ (now ≤ Code.expires_at r →
         redeemCode client code now s
           = (Return r, set_codes (delete code) s)
         ∧ exchangeAuthorizationCode client code verifier uri res now a b
             now' s
           = issuePair client (or_empty (Code.scopes r))
               (or_null (Code.resource r)) a b now'
               (set_codes (delete code) s))).
Proof.
  split.
  - intros Hno. apply exchange_not_found.
    intros r Hr Hc. apply Hno. eauto.
  - intros r Hr Hc. split; intros Hnow.
    + by apply exchange_expired with (r := r).
    + split; [|by apply exchange_unexpired].
      rewrite (redeemCode_found _ _ _ _ r) by done.
      by rewrite bool_decide_eq_false_2 by lia.
Qed.

(** ** Single use of authorization codes *)

Lemma insert_client_codes k r s :
  oauth_authorization_codes (insert_client k r s).2
    = oauth_authorization_codes s.
Proof. unfold insert_client. by repeat case_match. Qed.

Lemma insert_tokens_codes rows s :
  oauth_authorization_codes (insert_tokens rows s).2
    = oauth_authorization_codes s.
Proof. unfold insert_tokens. by repeat case_match. Qed.

Lemma insert_code_codes_ne k r s k' :
  k ≠ k' →
  oauth_authorization_codes (insert_code k r s).2 !! k'
    = oauth_authorization_codes s !! k'.
Proof.
  intros Hne. unfold insert_code. simpl.
  repeat case_match; simplify_eq/=; try done. by rewrite lookup_insert_ne.
Qed.

Lemma issuePair_codes client scopes resource a b now s :
  oauth_authorization_codes (issuePair client scopes resource a b now s).2
    = oauth_authorization_codes s.
Proof.
  unfold issuePair. async.
  match goal with |- context [insert_tokens ?rows s] =>
    pose proof (insert_tokens_codes rows s) as Hc;
    destruct (insert_tokens rows s) as [[[]|e] s']
  end; done.
Qed.

(** A call that does not draw [code] cannot bring it into the table. *)
Lemma serve_keeps_code_absent q code s :
  draws_code q ≠ Some code →
  oauth_authorization_codes s !! code = None →
  oauth_authorization_codes (serve q s) !! code = None.
Proof.
  intros Hq Hs. destruct q; simpl in *.
  - unfold getClient. async. by case_match.
  - unfold registerClient. async.
    match goal with |- context [insert_client ?k ?r s] =>
      pose proof (insert_client_codes k r s) as Hc;
      destruct (insert_client k r s) as [[[]|e] s']
    end; simpl in *; congruence.
  - unfold authorize. async.
    match goal with |- context [insert_code ?k ?r s] =>
      pose proof (insert_code_codes_ne k r s code) as Hc;
      destruct (insert_code k r s) as [[[]|e] s']
    end; simpl in *; repeat case_match; simpl;
      rewrite Hc; done || congruence.
  - unfold challengeForAuthorizationCode. async. by case_match.
  - rewrite exchangeAuthorizationCode_unfold.
    destruct (oauth_authorization_codes s !! authorizationCode) as [r|] eqn:Hr.
    + destruct (decide (Code.client_id r = client_id client)) as [Hcl|Hcl].
      * rewrite (redeemCode_found _ _ _ _ r) by done.
        assert (oauth_authorization_codes
                  (set_codes (delete authorizationCode) s) !! code = None).
        { simpl. apply lookup_delete_None. auto. }
        case_bool_decide; [done|]. by rewrite issuePair_codes.
      * rewrite redeemCode_not_found; [done|]. naive_solver.
    + rewrite redeemCode_not_found; [done|]. naive_solver.
  - unfold exchangeRefreshToken. async.
    repeat case_match; simplify_eq/=; try done.
    all: by rewrite issuePair_codes.
  - unfold verifyAccessToken. async. by repeat case_match; simplify_eq/=.
  - done.
Qed.

Lemma serve_all_keeps_code_absent qs code s :
  Forall (λ q, draws_code q ≠ Some code) qs →
  oauth_authorization_codes s !! code = None →
  oauth_authorization_codes (serve_all qs s) !! code = None.
Proof.
  intros Hqs. revert s. induction Hqs as [|q qs Hq _ IH]; intros s Hs; [done|].
  simpl. apply IH. by apply serve_keeps_code_absent.
Qed.

Lemma exchange_removes client code verifier uri res now a b now' s :
  (exchangeAuthorizationCode client code verifier uri res now a b now' s).1
    ≠ Throw Authorization_code_not_found →
  oauth_authorization_codes
    (exchangeAuthorizationCode client code verifier uri res now a b now' s).2
    !! code = None.
Proof.
  intros Hfound.
  assert ((redeemCode client code now s).1
            ≠ Throw Authorization_code_not_found) as Hred.
  { intros Hnf. apply Hfound. rewrite exchangeAuthorizationCode_unfold.
    destruct (redeemCode client code now s) as [[data|e] s']; by simplify_eq/=. }
  apply redeemCode_removes in Hred.
  rewrite exchangeAuthorizationCode_unfold.
  destruct (redeemCode client code now s) as [[data|e] s']; simpl in *; [|done].
  by rewrite issuePair_codes.
Qed.

(** C3: once an exchange has found a code (whether it redeemed it or found
    it expired, and in both cases removed its row), every later exchange of
    that code, by any client, with any arguments and after any calls that do
    not draw the same code value again, fails with "Authorization code not
    found", a failure of kind NotFound and not of kind Expired, and leaves
    the store as it found it. *)
Theorem authorization_code_single_use client code verifier uri res now a b
    now' s qs client2 verifier2 uri2 res2 now2 a2 b2 now2' :
  (exchangeAuthorizationCode client code verifier uri res now a b now' s).1
    ≠ Throw Authorization_code_not_found →
  Forall (λ q, draws_code q ≠ Some code) qs →
  let s1 :=
    serve_all qs
      (exchangeAuthorizationCode client code verifier uri res now a b now' s).2
  in
  exchangeAuthorizationCode client2 code verifier2 uri2 res2 now2 a2 b2 now2'
    s1 = (Throw Authorization_code_not_found, s1)
  ∧ fails NotFound
      (exchangeAuthorizationCode client2 code verifier2 uri2 res2 now2 a2 b2
         now2' s1).1
  ∧ ¬ fails Expired
      (exchangeAuthorizationCode client2 code verifier2 uri2 res2 now2 a2 b2
         now2' s1).1.
Proof.
  intros Hfound Hqs s1.
  assert (oauth_authorization_codes s1 !! code = None) as Hgone.
  { apply serve_all_keeps_code_absent; [done|]. by apply exchange_removes. }
  assert (exchangeAuthorizationCode client2 code verifier2 uri2 res2 now2 a2
            b2 now2' s1 = (Throw Authorization_code_not_found, s1)) as Heq.
  { apply exchange_not_found. intros r Hr. congruence. }
  rewrite Heq. split; [done|]. split.
  - by exists Authorization_code_not_found.
  - intros (e & [= <-] & He). done.
Qed.

(** ** Issuing codes and token pairs *)

Lemma insert_rows_two {R} (t : gmap string R) k1 r1 k2 r2 t' :
  insert_rows [(k1, r1); (k2, r2)] t = Some t' ↔
  t !! k1 = None ∧ t !! k2 = None ∧ k1 ≠ k2 ∧ t' = <[k2 := r2]> (<[k1 := r1]> t).
Proof.
  simpl. destruct (t !! k1) eqn:Hk1; [by split; [|intros [? _]]|].
  destruct (decide (k1 = k2)) as [->|Hne].
  - rewrite lookup_insert_eq. by split; [|intros (_ & _ & ? & _)].
  - rewrite lookup_insert_ne by done.
    destruct (t !! k2) eqn:Hk2; [by split; [|intros (_ & ? & _)]|].
    split; [by intros [= <-]|]. by intros (_ & _ & _ & ->).
Qed.

Lemma insert_tokens_false rows s s' :
  insert_tokens rows s = (Return false, s') →
  ∃ t', insert_rows rows (oauth_tokens s) = Some t'
        ∧ s' = set_tokens (λ _, t') s.
Proof.
  unfold insert_tokens. destruct (forallb _ _); [|done].
  destruct (insert_rows _ _) as [t'|]; [|done].
  intros [= <-]. eauto.
Qed.

Lemma issuePair_Return client scopes resource a b now s resp s' :
  issuePair client scopes resource a b now s = (Return resp, s') →
  oauth_tokens s !! a = None ∧ oauth_tokens s !! b = None ∧ a ≠ b
  ∧ resp = Tokens.mk a "bearer" 3600 b (join_space scopes)
  ∧ s' = set_tokens
           (λ t, <[b := Token.mk refresh (client_id client) (Some scopes)
                          resource (now + 2592000000) false (Some a)]>
                   (<[a := Token.mk access (client_id client) (Some scopes)
                            resource (now + 3600000) false (Some b)]> t)) s.
Proof.
  unfold issuePair, mbind, Async_bind.
  destruct (insert_tokens _ s) as [[[]|e] s1] eqn:Hins; try done.
  apply insert_tokens_false in Hins as (t' & Hins & ->).
  apply insert_rows_two in Hins as (Ha & Hb & Hne & ->).
  intros [= <- <-]. done.
Qed.

Lemma issuePair_rows client scopes resource a b now s resp s' :
  issuePair client scopes resource a b now s = (Return resp, s') →
  oauth_tokens s' !! a
    = Some (Token.mk access (client_id client) (Some scopes) resource
              (now + 3600000) false (Some b))
  ∧ oauth_tokens s' !! b
    = Some (Token.mk refresh (client_id client) (Some scopes) resource
              (now + 2592000000) false (Some a))
  ∧ resp = Tokens.mk a "bearer" 3600 b (join_space scopes).
Proof.
  intros Hpair. apply issuePair_Return in Hpair as (_ & _ & Hne & -> & ->).
  simpl. rewrite lookup_insert_ne by done. by rewrite !lookup_insert_eq.
Qed.

Lemma exchange_Return client code verifier uri res now a b now' s resp s' :
  exchangeAuthorizationCode client code verifier uri res now a b now' s
    = (Return resp, s') →
  ∃ data, oauth_authorization_codes s !! code = Some data
    ∧ Code.client_id data = client_id client
    ∧ now ≤ Code.expires_at data
    ∧ issuePair client (or_empty (Code.scopes data))
        (or_null (Code.resource data)) a b now' (set_codes (delete code) s)
      = (Return resp, s').
Proof.
  intros Hex.
  destruct (oauth_authorization_codes s !! code) as [r|] eqn:Hr.
  - destruct (decide (Code.client_id r = client_id client)) as [Hc|Hc].
    + destruct (decide (Code.expires_at r < now)) as [Hlt|Hge].
      * by rewrite exchange_expired with (r := r) in Hex.
      * exists r. rewrite exchange_unexpired with (r := r) in Hex by (done || lia).
        repeat split; [done|lia|done].
    + rewrite exchange_not_found in Hex; [done|]. intros r' Hr'. congruence.
  - rewrite exchange_not_found in Hex; [done|]. intros r' Hr'. congruence.
Qed.

(** C5: when [exchangeAuthorizationCode] returns, the two values drawn for
    the pair were in no row before and differ from each other; the table
    then holds an access row expiring one hour (3 600 000 ms) and a refresh
    row expiring thirty days (2 592 000 000 ms) after the clock reading of
    the mint, each naming the other in [related_token], both not revoked and
    with the client, the scopes and the resource of the grant; no other
    token row changes; and the object returned has the two values,
    [token_type] "bearer", [expires_in] 3600 and, as [scope], the scopes
    joined by single spaces: the empty string for no scope, the scope itself
    for one, and for more the first scope, one space, and the rest joined in
    the same way. *)
Theorem exchangeAuthorizationCode_issues_pair client code verifier uri res
    now a b now' s resp s' :
  exchangeAuthorizationCode client code verifier uri res now a b now' s
    = (Return resp, s') →
  ∃ data, oauth_authorization_codes s !! code = Some data
    ∧ Code.client_id data = client_id client
    ∧ let granted := or_empty (Code.scopes data) in
      let target := or_null (Code.resource data) in
      (oauth_tokens s !! a = None ∧ oauth_tokens s !! b = None ∧ a ≠ b)
      ∧ oauth_tokens s' !! a
        = Some (Token.mk access (client_id client) (Some granted) target
                  (now' + 3600000) false (Some b))
      ∧ oauth_tokens s' !! b
        = Some (Token.mk refresh (client_id client) (Some granted) target
                  (now' + 2592000000) false (Some a))
      ∧ (∀ k, k ≠ a → k ≠ b → oauth_tokens s' !! k = oauth_tokens s !! k)
      ∧ resp = Tokens.mk a "bearer" 3600 b (String.concat " " granted)
      ∧ (granted = [] → Tokens.scope resp = "")
      ∧ (∀ x, granted = [x] → Tokens.scope resp = x)
      ∧ (∀ x y l, granted = x :: y :: l →
           Tokens.scope resp = x +:+ " " +:+ String.concat " " (y :: l)).
Proof.
  intros Hex. apply exchange_Return in Hex as (data & Hd & Hc & _ & Hpair).
  exists data. split; [done|]. split; [done|].
  apply issuePair_Return in Hpair as (Ha & Hb & Hne & -> & ->).
  unfold join_space. simpl.
  split; [done|]. split; [|split; [|split; [|split; [|split; [|split]]]]].
  - rewrite lookup_insert_ne by done. apply lookup_insert_eq.
  - apply lookup_insert_eq.
  - intros k Hka Hkb. by rewrite !lookup_insert_ne.
  - done.
  - by intros ->.
  - by intros x ->.
  - by intros x y l ->.
Qed.

(** C4: when [authorize] returns, the code it drew was in no row before
    (it is fresh), the table of codes has gained exactly one row, keyed by
    the code, whose expiry is the clock reading plus 600 000 ms (ten
    minutes) and which binds the client, the redirect URI, the challenge,
    the scopes, the state and the resource of the request; and the code
    goes back to the caller as the [code] parameter of the redirect. *)
Theorem authorize_issues_code `{!WebURLLaws} client params code now s loc s' :
  authorize client params code now s = (Return loc, s') →
  oauth_authorization_codes s !! code = None
  ∧ (∃ row, s' = set_codes (insert code row) s
       ∧ oauth_authorization_codes s' !! code = Some row
       ∧ Code.expires_at row = now + 600 * 1000
       ∧ Code.client_id row = client_id client
       ∧ Code.redirect_uri row = Params.redirectUri params
       ∧ Code.code_challenge row = Params.codeChallenge params
       ∧ Code.scopes row = Some (or_empty (Params.scopes params))
       ∧ Code.state row = or_null (Params.state params)
       ∧ Code.resource row = (URL_href <$> Params.resource params))
  ∧ (∃ u, loc = URL_href u ∧ searchParams_get "code" u = Some code).
Proof.
  unfold authorize, insert_code. async.
  destruct (references_client _ _); [|done].
  destruct (oauth_authorization_codes s !! code) eqn:Hfresh; [done|].
  simpl. destruct (URL_parse _) as [u|]; [|done].
  intros [= <- <-]. split; [done|]. split.
  - eexists. split; [reflexivity|]. simpl. rewrite lookup_insert_eq.
    by repeat split.
  - eexists. split; [reflexivity|].
    destruct (or_null (Params.state params)).
    + rewrite get_set_ne by done. apply get_set_eq.
    + apply get_set_eq.
Qed.

(** ** Verification of access tokens *)

Lemma or_null_ok x : resource_ok x → or_null x = x.
Proof. destruct x as [[|]|]; simpl; [|done..]. by intros []. Qed.

Lemma or_null_parses x y :
  resource_ok x → or_null x = Some y → is_Some (URL_parse y).
Proof. intros Hx Hy. rewrite or_null_ok in Hy by done. subst x. apply Hx. Qed.

Lemma verifyAccessToken_reads token now s :
  (verifyAccessToken token now s).2 = s.
Proof. unfold verifyAccessToken. async. by repeat case_match. Qed.

Lemma verifyAccessToken_invalid token now s :
  (∀ r, oauth_tokens s !! token = Some r →
        ¬ (Token.token_type r = access ∧ Token.revoked r = false)) →
  verifyAccessToken token now s = (Throw Invalid_access_token, s).
Proof.
  intros Hno. unfold verifyAccessToken. async.
  destruct (single _) as [r|] eqn:Hsel; [|done].
  apply single_rows_where_Some in Hsel as [Hr Hf].
  apply andb_true_iff in Hf as [Ht Hv].
  apply bool_decide_eq_true in Ht, Hv. by destruct (Hno r).
Qed.

Lemma verifyAccessToken_found token now s r :
  oauth_tokens s !! token = Some r →
  Token.token_type r = access → Token.revoked r = false →
  verifyAccessToken token now s =
    (if bool_decide (Token.expires_at r < now) then Throw Access_token_expired
     else match or_null (Token.resource r) with
          | None =>
              Return (AuthInfo.mk token (Token.client_id r)
                        (or_empty (Token.scopes r))
                        (Token.expires_at r `div` 1000) None)
          | Some x =>
              match URL_parse x with
              | None => Throw Invalid_URL
              | Some u =>
                  Return (AuthInfo.mk token (Token.client_id r)
                            (or_empty (Token.scopes r))
                            (Token.expires_at r `div` 1000) (Some u))
              end
          end, s).
Proof.
  intros Hr Ht Hv. unfold verifyAccessToken. async.
  assert (single (rows_where (oauth_tokens s) token
            (λ r, bool_decide (Token.token_type r = access)
                  && bool_decide (Token.revoked r = false))) = Some r) as ->.
  { apply single_rows_where_Some. split; [done|].
    by rewrite !bool_decide_eq_true_2. }
  by repeat case_match.
Qed.

(** C7: [verifyAccessToken] never writes: the store after it is the store
    before it.  It fails with "Invalid access token" when no row that is of
    kind access and not revoked has the token; when there is such a row and
    its expiry is before the clock reading it fails with "Access token
    expired", so the expiry is tested after the row was selected and not by
    the selection; otherwise, on a store written by the provider, it
    returns the row's client identifier, its scopes, its expiry (in whole
    seconds) and its resource, parsed as a URL when there is one. *)
Theorem verifyAccessToken_cases token now s :
  (verifyAccessToken token now s).2 = s
  ∧ ((¬ ∃ r, oauth_tokens s !! token = Some r
             ∧ Token.token_type r = access ∧ Token.revoked r = false) →
     (verifyAccessToken token now s).1 = Throw Invalid_access_token)
  ∧ (∀ r, oauth_tokens s !! token = Some r →
          Token.token_type r = access → Token.revoked r = false →
      (Token.expires_at r < now →
       (verifyAccessToken token now s).1 = Throw Access_token_expired)
      ∧ (now ≤ Token.expires_at r → store_ok s →
         ∃ info, (verifyAccessToken token now s).1 = Return info
           ∧ AuthInfo.token info = token
           ∧ AuthInfo.clientId info = Token.client_id r
           ∧ Some (AuthInfo.scopes info) = Token.scopes r
           ∧ AuthInfo.expiresAt info = Token.expires_at r `div` 1000
           ∧ AuthInfo.resource info = Token.resource r ≫= URL_parse
           ∧ (is_Some (AuthInfo.resource info)
              ↔ is_Some (Token.resource r)))).
Proof.
  split; [apply verifyAccessToken_reads|]. split.
  - intros Hno. rewrite verifyAccessToken_invalid; [done|].
    intros r Hr [Ht Hv]. apply Hno. eauto.
  - intros r Hr Ht Hv. rewrite (verifyAccessToken_found _ _ _ r) by done.
    split; intros Hnow.
    + by rewrite bool_decide_eq_true_2.
    + intros [_ Hok]. apply (map_Forall_lookup_1 _ _ _ _ Hok) in Hr as [Hsc Hres].
      rewrite bool_decide_eq_false_2 by lia. simpl.
      destruct Hsc as [sc Hsc]. rewrite or_null_ok by done.
      destruct (Token.resource r) as [x|] eqn:Hx; simpl.
      * destruct Hres as [_ [u Hu]]. rewrite Hu. eexists. split; [done|].
        simpl. rewrite Hsc. repeat split; eauto.
      * eexists. split; [done|]. simpl. rewrite Hsc.
        repeat split; try done; by intros [? ?].
Qed.

(** C8: when [exchangeAuthorizationCode] returns on a store written by the
    provider, verifying the access token it returned, on the store it left
    and at any clock reading up to the token's expiry, returns the
    identifier of the client that made the exchange and the scopes of the
    grant, which are those the response lists. *)
Theorem issue_then_verify client code verifier uri res now a b now' s resp s'
    now_verify :
  store_ok s →
  exchangeAuthorizationCode client code verifier uri res now a b now' s
    = (Return resp, s') →
  now_verify ≤ now' + 3600000 →
  ∃ data info,
    oauth_authorization_codes s !! code = Some data
    ∧ verifyAccessToken (Tokens.access_token resp) now_verify s'
      = (Return info, s')
    ∧ AuthInfo.clientId info = client_id client
    ∧ Some (AuthInfo.scopes info) = Code.scopes data
    ∧ join_space (AuthInfo.scopes info) = Tokens.scope resp.
Proof.
  intros [Hcodes _] Hex Hnow.
  apply exchange_Return in Hex as (data & Hd & _ & _ & Hpair).
  apply issuePair_rows in Hpair as (Ha & _ & ->).
  apply (map_Forall_lookup_1 _ _ _ _ Hcodes) in Hd as Hok.
  destruct Hok as [[sc Hsc] Hres].
  exists data. simpl.
  rewrite (verifyAccessToken_found _ _ _ _ Ha) by done. simpl.
  rewrite bool_decide_eq_false_2 by lia.
  rewrite (or_null_ok (Code.resource data)) by done.
  rewrite or_null_ok by done. rewrite Hsc. simpl.
  destruct (Code.resource data) as [x|]; simpl.
  - destruct Hres as [_ [u ->]]. eexists. by repeat split.
  - eexists. by repeat split.
Qed.

(** ** Rotation of refresh tokens *)

Lemma revoke_revoke r : Token.revoke (Token.revoke r) = Token.revoke r.
Proof. done. Qed.

(** The rows after [.update({ revoked: true }).in('token', ks)]. *)
Lemma revoke_list_lookup (t : gmap string Token.row) ks k :
  foldr (alter Token.revoke) t ks !! k =
    if decide (k ∈ ks) then Token.revoke <$> t !! k else t !! k.
Proof.
  induction ks as [|x ks IH].
  - done.
  - change (foldr (alter Token.revoke) t (x :: ks))
      with (alter Token.revoke x (foldr (alter Token.revoke) t ks)).
    rewrite lookup_alter.
    destruct (decide (x = k)) as [->|Hne]; rewrite IH;
      destruct (decide (k ∈ ks)) as [Hin|Hin];
      destruct (decide (k ∈ _ :: ks)) as [Hin'|Hin'];
      try done; try (by destruct (t !! k)).
    all: exfalso; revert Hin'; rewrite elem_of_cons; intuition congruence.
Qed.

Lemma insert_tokens_outcome rows s :
  (∃ t', insert_tokens rows s = (Return false, set_tokens (λ _, t') s)
         ∧ insert_rows rows (oauth_tokens s) = Some t')
  ∨ insert_tokens rows s = (Return true, s).
Proof.
  unfold insert_tokens. destruct (forallb _ _); [|by right].
  destruct (insert_rows _ _) as [t'|]; [left; eauto|by right].
Qed.

(** Whether it succeeds or not, [issuePair] leaves the rows alone that were
    there. *)
Lemma issuePair_keeps client scopes resource a b now s k :
  is_Some (oauth_tokens s !! k) →
  oauth_tokens (issuePair client scopes resource a b now s).2 !! k
    = oauth_tokens s !! k.
Proof.
  intros [r Hk]. unfold issuePair, mbind, Async_bind.
  match goal with |- context [insert_tokens ?rows s] =>
    destruct (insert_tokens_outcome rows s) as [(t' & -> & Hins)| ->]
  end; [|done].
  apply insert_rows_two in Hins as (Ha & Hb & _ & ->). simpl.
  rewrite !lookup_insert_ne by congruence. done.
Qed.

Lemma exchangeRefreshToken_invalid client token scopes res now a b now' s :
  (∀ r, oauth_tokens s !! token = Some r →
        ¬ (Token.token_type r = refresh
           ∧ Token.client_id r = client_id client
           ∧ Token.revoked r = false)) →
  exchangeRefreshToken client token scopes res now a b now' s
    = (Throw Invalid_refresh_token, s).
Proof.
  intros Hno. unfold exchangeRefreshToken. async.
  destruct (single _) as [r|] eqn:Hsel; [|done].
  apply single_rows_where_Some in Hsel as [Hr Hf].
  apply andb_true_iff in Hf as [Hf Hv]. apply andb_true_iff in Hf as [Ht Hc].
  apply bool_decide_eq_true in Ht, Hc, Hv. by destruct (Hno r).
Qed.

Lemma exchangeRefreshToken_found client token scopes res now a b now' s r :
  oauth_tokens s !! token = Some r →
  Token.token_type r = refresh →
  Token.client_id r = client_id client →
  Token.revoked r = false →
  exchangeRefreshToken client token scopes res now a b now' s =
    if bool_decide (Token.expires_at r < now)
    then (Throw Refresh_token_expired, s)
    else issuePair client
           (match scopes with
            | Some scopes => scopes
            | None => or_empty (Token.scopes r)
            end)
           (or_null (Token.resource r)) a b now'
           (set_tokens
              (λ t, foldr (alter Token.revoke) t
                      (omap id [Some token; Token.related_token r])) s).
Proof.
  intros Hr Ht Hc Hv. unfold exchangeRefreshToken. async.
  assert (single (rows_where (oauth_tokens s) token
            (λ r, bool_decide (Token.token_type r = refresh)
                  && bool_decide (Token.client_id r = client_id client)
                  && bool_decide (Token.revoked r = false))) = Some r) as ->.
  { apply single_rows_where_Some. split; [done|].
    by rewrite !bool_decide_eq_true_2. }
  by case_bool_decide.
Qed.

(** C6: [exchangeRefreshToken] fails with "Invalid refresh token" and
    writes nothing when no row that is of kind refresh, of this client and
    not revoked has the presented token; it fails with "Refresh token
    expired" and writes nothing when there is such a row and its expiry is
    before the clock reading.  Otherwise it marks the presented row and the
    row it names in [related_token] revoked, that is, their [revoked] column
    is [true] afterwards and their other columns are as before, and they stay
    so whether or not the new pair can be stored.  When it returns, the table holds a fresh
    pair, linked both ways, for the same client, whose expiries are one hour
    and thirty days after the clock reading of the mint, whose scopes are
    the requested ones when the call supplies them and those of the
    presented row otherwise, and whose resource is that of the presented
    row; the values returned are those of the fresh pair and none of them is
    a value of the old pair. *)
Theorem exchangeRefreshToken_rotates client token scopes res now a b now' s :
  ((¬ ∃ r, oauth_tokens s !! token = Some r
           ∧ Token.token_type r = refresh
           ∧ Token.client_id r = client_id client
           ∧ Token.revoked r = false) →
   exchangeRefreshToken client token scopes res now a b now' s
     = (Throw Invalid_refresh_token, s))
  ∧ (∀ r, oauth_tokens s !! token = Some r →
          Token.token_type r = refresh →
          Token.client_id r = client_id client →
          Token.revoked r = false →
      (Token.expires_at r < now →
       exchangeRefreshToken client token scopes res now a b now' s
         = (Throw Refresh_token_expired, s))
      ∧ (now ≤ Token.expires_at r →
         let s' :=
           (exchangeRefreshToken client token scopes res now a b now' s).2 in
         oauth_tokens s' !! token
           = Some (Token.mk (Token.token_type r) (Token.client_id r)
                     (Token.scopes r) (Token.resource r) (Token.expires_at r)
                     true (Token.related_token r))
         ∧ (Token.revoked <$> oauth_tokens s' !! token) = Some true
         ∧ (∀ k old, Token.related_token r = Some k →
               oauth_tokens s !! k = Some old →
               oauth_tokens s' !! k
                 = Some (Token.mk (Token.token_type old) (Token.client_id old)
                           (Token.scopes old) (Token.resource old)
                           (Token.expires_at old) true
                           (Token.related_token old))
               ∧ (Token.revoked <$> oauth_tokens s' !! k) = Some true)
         ∧ (∀ resp,
              (exchangeRefreshToken client token scopes res now a b now' s).1
                = Return resp →
              store_ok s →
              let granted :=
                match scopes with
                | Some scopes => Some scopes
                | None => Token.scopes r
                end in
              oauth_tokens s' !! a
                = Some (Token.mk access (client_id client) granted
                          (Token.resource r) (now' + 3600000) false (Some b))
              ∧ oauth_tokens s' !! b
                = Some (Token.mk refresh (client_id client) granted
                          (Token.resource r) (now' + 2592000000) false
                          (Some a))
              ∧ resp = Tokens.mk a "bearer" 3600 b
                         (String.concat " " (or_empty granted))
              ∧ a ≠ b ∧ a ≠ token ∧ b ≠ token
              ∧ (∀ k, Token.related_token r = Some k →
                      is_Some (oauth_tokens s !! k) → a ≠ k ∧ b ≠ k)
              ∧ oauth_tokens s !! a = None ∧ oauth_tokens s !! b = None))).
Proof.
  split.
  - intros Hno. apply exchangeRefreshToken_invalid.
    intros r Hr (Ht & Hc & Hv). apply Hno. eauto.
  - intros r Hr Ht Hc Hv.
    rewrite (exchangeRefreshToken_found _ _ _ _ _ _ _ _ _ r) by done.
    split; intros Hnow; [by rewrite bool_decide_eq_true_2|].
    rewrite bool_decide_eq_false_2 by lia.
    set (s1 := set_tokens _ s).
    assert (∀ k, oauth_tokens s1 !! k =
              if decide (k ∈ omap id [Some token; Token.related_token r])
              then Token.revoke <$> oauth_tokens s !! k
              else oauth_tokens s !! k) as Hs1.
    { intros k. apply revoke_list_lookup. }
    assert (oauth_tokens s1 !! token = Some (Token.revoke r)) as Htok.
    { rewrite Hs1, decide_True; [by rewrite Hr|].
      simpl. apply list_elem_of_here. }
    split; [|split; [|split]].
    + by rewrite issuePair_keeps.
    + by rewrite issuePair_keeps, Htok.
    + intros k old Hrel Hk.
      assert (oauth_tokens s1 !! k = Some (Token.revoke old)) as Hk1.
      { rewrite Hs1, decide_True; [by rewrite Hk|].
        rewrite Hrel. simpl. apply list_elem_of_further, list_elem_of_here. }
      by rewrite issuePair_keeps, Hk1.
    + intros resp Hret [_ Htokens].
      apply (map_Forall_lookup_1 _ _ _ _ Htokens) in Hr as Hok.
      destruct Hok as [[sc Hsc] Hres].
      destruct (issuePair _ _ _ _ _ _ s1) as [o s2] eqn:Hpair.
      simpl in Hret. subst o.
      apply issuePair_Return in Hpair as (Ha & Hb & Hne & -> & ->).
      rewrite or_null_ok by done. unfold join_space. simpl.
      assert (a ≠ token) by congruence. assert (b ≠ token) by congruence.
      assert (∀ k, oauth_tokens s1 !! k = None → oauth_tokens s !! k = None)
        as Hfresh.
      { intros k. rewrite Hs1. case_decide; [|done].
        by destruct (oauth_tokens s !! k). }
      rewrite lookup_insert_ne by done. rewrite !lookup_insert_eq.
      assert (∀ k, Token.related_token r = Some k →
                   is_Some (oauth_tokens s !! k) → a ≠ k ∧ b ≠ k) as Hlinked.
      { intros k _ [old Hk]. apply Hfresh in Ha, Hb. split; congruence. }
      destruct scopes as [requested|]; simpl; rewrite ?Hsc; simpl;
        repeat split; auto; by apply Hlinked.
Qed.

(** ** Revocation *)

Lemma revokeToken_tokens client token s :
  oauth_tokens (revokeToken client token s).2 =
    alter (λ r, if bool_decide (Token.client_id r = client_id client)
                then Token.revoke r else r) token (oauth_tokens s).
Proof. done. Qed.

(** What an explicit revocation does to the row it names. *)
Lemma revokeToken_revokes client token s r :
  oauth_tokens s !! token = Some r →
  Token.client_id r = client_id client →
  oauth_tokens (revokeToken client token s).2 !! token
    = Some (Token.revoke r).
Proof.
  intros Hr Hc. rewrite revokeToken_tokens, lookup_alter_eq, Hr. simpl.
  by rewrite bool_decide_eq_true_2.
Qed.

(** C1 (what the code does): an explicit revocation writes to no row but
    the one whose [token] is the value presented; in particular the other
    member of its pair, which has another value, keeps its [revoked] flag. *)
Theorem revokeToken_spares_sibling client token s k :
  k ≠ token →
  oauth_tokens (revokeToken client token s).2 !! k = oauth_tokens s !! k.
Proof. intros Hne. rewrite revokeToken_tokens. by rewrite lookup_alter_ne. Qed.

(** C9: [revokeToken] always returns, never throws; when no row has the
    token, or when the row that has it belongs to another client, the store
    is left as it was; and a second revocation of the same token by the same
    client changes nothing more than the first. *)
Theorem revokeToken_silent_idempotent client token s :
  (revokeToken client token s).1 = Return ()
  ∧ (oauth_tokens s !! token = None → (revokeToken client token s).2 = s)
  ∧ (∀ r, oauth_tokens s !! token = Some r →
          Token.client_id r ≠ client_id client →
          (revokeToken client token s).2 = s)
  ∧ revokeToken client token (revokeToken client token s).2
    = revokeToken client token s.
Proof.
  split; [done|]. split; [|split].
  - intros Hnone. unfold revokeToken, revoke_where. simpl.
    apply set_tokens_id. by apply alter_id'.
  - intros r Hr Hc. unfold revokeToken, revoke_where. simpl.
    apply set_tokens_id. apply alter_id.
    intros r' Hr'. simplify_eq. by rewrite bool_decide_eq_false_2.
  - unfold revokeToken, revoke_where. simpl. f_equal.
    unfold set_tokens. simpl. f_equal.
    rewrite alter_alter_eq. apply alter_ext. intros r _. simpl.
    destruct (bool_decide (Token.client_id r = client_id client)) eqn:Hc;
      simpl; by rewrite Hc.
Qed.

(** ** The arguments the code exchange does not read *)

(** C10: [exchangeAuthorizationCode] does not read its [codeVerifier],
    [redirectUri] and [resource] arguments.  Two calls on the same store that
    agree on the client, the code and the clock give the same outcome and the
    same store when they draw the same token values, whatever those three
    arguments are; when they draw different values, each fails before the
    mint exactly when the other does and with the same error, and when both
    return, the responses agree on everything but the two token values and
    the rows minted agree on every column but [token] and [related_token]:
    their scopes and resource are those of the stored code.  No comparison
    with the stored redirect URI or challenge takes place. *)
Theorem exchange_ignores_verifier_uri_resource client code now now' s
    verifier1 uri1 res1 verifier2 uri2 res2 :
  (∀ a b,
     exchangeAuthorizationCode client code verifier1 uri1 res1 now a b now' s
     = exchangeAuthorizationCode client code verifier2 uri2 res2 now a b now' s)
  ∧ (∀ a1 b1 a2 b2,
       let call1 :=
         exchangeAuthorizationCode client code verifier1 uri1 res1 now a1 b1
           now' s in
       let call2 :=
         exchangeAuthorizationCode client code verifier2 uri2 res2 now a2 b2
           now' s in
       (∀ e, e ≠ Failed_to_store_tokens →
             (call1.1 = Throw e ↔ call2.1 = Throw e))
       ∧ (∀ resp1 resp2, call1.1 = Return resp1 → call2.1 = Return resp2 →
            Tokens.token_type resp1 = Tokens.token_type resp2
            ∧ Tokens.expires_in resp1 = Tokens.expires_in resp2
            ∧ Tokens.scope resp1 = Tokens.scope resp2
            ∧ Token.unlink <$> oauth_tokens call1.2 !! a1
              = Token.unlink <$> oauth_tokens call2.2 !! a2
            ∧ Token.unlink <$> oauth_tokens call1.2 !! b1
              = Token.unlink <$> oauth_tokens call2.2 !! b2
            ∧ ∃ data, oauth_authorization_codes s !! code = Some data
                ∧ (Token.scopes <$> oauth_tokens call1.2 !! a1)
                  = Some (Some (or_empty (Code.scopes data)))
                ∧ (Token.resource <$> oauth_tokens call1.2 !! a1)
                  = Some (or_null (Code.resource data)))).
Proof.
  split; [done|]. intros a1 b1 a2 b2 call1 call2. split.
  - intros e He. subst call1 call2.
    rewrite !exchangeAuthorizationCode_unfold.
    destruct (redeemCode client code now s) as [[data|e'] s1]; [|done].
    unfold issuePair, mbind, Async_bind.
    split; intros Hthrow;
      repeat match goal with
      | H : context [insert_tokens ?rows s1] |- _ =>
          destruct (insert_tokens_outcome rows s1) as [(? & Hi & _)|Hi];
          rewrite Hi in H; simpl in H
      end; simplify_eq/=.
  - intros resp1 resp2 H1 H2.
    destruct call1 as [o1 s1] eqn:Hc1. destruct call2 as [o2 s2] eqn:Hc2.
    simpl in *. subst o1 o2.
    apply exchange_Return in Hc1 as (data & Hd & _ & _ & Hpair1).
    apply exchange_Return in Hc2 as (data' & Hd' & _ & _ & Hpair2).
    apply issuePair_rows in Hpair1 as (Ha1 & Hb1 & ->).
    apply issuePair_rows in Hpair2 as (Ha2 & Hb2 & ->).
    simplify_eq. rewrite Ha1, Ha2, Hb1, Hb2. simpl.
    repeat split; try done. by exists data.
Qed.

(** ** Every store the provider reaches is written by the provider *)

Lemma store_ok_empty : store_ok empty_store.
Proof. split; apply map_Forall_empty. Qed.

Lemma or_null_resource_ok x : resource_ok x → resource_ok (or_null x).
Proof. intros Hx. by rewrite or_null_ok. Qed.

Lemma issuePair_store_ok client scopes resource a b now s :
  resource_ok resource → store_ok s →
  store_ok (issuePair client scopes resource a b now s).2.
Proof.
  intros Hres [Hcodes Htokens]. split; [by rewrite issuePair_codes|].
  unfold issuePair, mbind, Async_bind.
  match goal with |- context [insert_tokens ?rows s] =>
    destruct (insert_tokens_outcome rows s) as [(t' & -> & Hins)| ->]
  end; [|done].
  apply insert_rows_two in Hins as (_ & _ & _ & ->). simpl.
  apply map_Forall_insert_2; [by split; [eexists|]|].
  apply map_Forall_insert_2; [by split; [eexists|]|]. done.
Qed.

Lemma revoke_list_ok (t : gmap string Token.row) ks :
  map_Forall (λ _, token_ok) t →
  map_Forall (λ _, token_ok) (foldr (alter Token.revoke) t ks).
Proof.
  intros Ht k r. rewrite revoke_list_lookup. case_decide; [|apply Ht].
  destruct (t !! k) as [r'|] eqn:Hk; [|done]. intros [= <-].
  apply (Ht k r' Hk).
Qed.

Lemma insert_code_store_ok k r s :
  code_ok r → store_ok s → store_ok (insert_code k r s).2.
Proof.
  intros Hr [Hcodes Htokens]. unfold insert_code.
  destruct (references_client _ _); [|done]. simpl.
  destruct (_ !! k); [done|]. simpl. split; [|done].
  by apply map_Forall_insert_2.
Qed.

Lemma serve_store_ok `{!WebURLLaws} q s : store_ok s → store_ok (serve q s).
Proof.
  intros Hs. destruct q; simpl.
  - unfold getClient. async. by case_match.
  - unfold registerClient, mbind, Async_bind, insert_client.
    destruct Hs. by repeat case_match; simplify_eq/=.
  - unfold authorize, mbind, Async_bind.
    match goal with |- context [insert_code ?k ?r s] =>
      assert (store_ok (insert_code k r s).2) as Hins;
      [|by destruct (insert_code k r s) as [[[]|e] s']; repeat case_match]
    end.
    apply insert_code_store_ok; [|done]. split; [by eexists|]. simpl.
    destruct (Params.resource params) as [u|]; [|done].
    split; [apply href_nonempty|apply href_parses].
  - unfold challengeForAuthorizationCode. async. by case_match.
  - rewrite exchangeAuthorizationCode_unfold.
    destruct (oauth_authorization_codes s !! authorizationCode) as [r|] eqn:Hr.
    + destruct (decide (Code.client_id r = client_id client)) as [Hc|Hc].
      * rewrite (redeemCode_found _ _ _ _ r) by done.
        destruct Hs as [Hcodes Htokens].
        assert (store_ok (set_codes (delete authorizationCode) s)).
        { split; [|done]. by apply map_Forall_delete. }
        case_bool_decide; [done|]. apply issuePair_store_ok; [|done].
        apply or_null_resource_ok. by apply (Hcodes _ _ Hr).
      * rewrite redeemCode_not_found; [done|].
        intros r' Hr'. congruence.
    + rewrite redeemCode_not_found; [done|]. intros r' Hr'. congruence.
  - destruct (oauth_tokens s !! refreshToken) as [r|] eqn:Hr.
    + destruct (decide (Token.token_type r = refresh
                        ∧ Token.client_id r = client_id client
                        ∧ Token.revoked r = false)) as [(Ht & Hc & Hv)|Hno].
      * rewrite (exchangeRefreshToken_found _ _ _ _ _ _ _ _ _ r) by done.
        case_bool_decide; [done|]. destruct Hs as [Hcodes Htokens].
        apply issuePair_store_ok.
        -- apply or_null_resource_ok. by apply (Htokens _ _ Hr).
        -- split; [done|]. by apply revoke_list_ok.
      * rewrite exchangeRefreshToken_invalid; [done|].
        intros r' Hr'. congruence.
    + rewrite exchangeRefreshToken_invalid; [done|]. intros r' Hr'. congruence.
  - by rewrite verifyAccessToken_reads.
  - destruct Hs as [Hcodes Htokens]. split; [done|].
    simpl. intros k r. rewrite lookup_alter.
    case_decide; [|apply Htokens]. subst k.
    destruct (oauth_tokens s !! token) as [r'|] eqn:Hk; [|done].
    intros [= <-]. case_bool_decide; apply (Htokens _ _ Hk).
Qed.

Lemma serve_all_store_ok `{!WebURLLaws} qs s :
  store_ok s → store_ok (serve_all qs s).
Proof.
  revert s. induction qs as [|q qs IH]; intros s Hs; [done|].
  simpl. by apply IH, serve_store_ok.
Qed.

(** Starting from empty tables, whatever the calls and their outcomes. *)
Lemma reachable_store_ok `{!WebURLLaws} qs : store_ok (serve_all qs empty_store).
Proof. apply serve_all_store_ok, store_ok_empty. Qed.

End Properties.

(** * Further properties of the provider *)

Section Lifecycle.
Context {W : WebURL}.

(** ** The client registry *)

Lemma getClient_eq clientId s :
  getClient clientId s
    = (Return (mkClient clientId <$> oauth_clients s !! clientId), s).
Proof.
  unfold getClient. async. unfold rows_where.
  by destruct (oauth_clients s !! clientId).
Qed.

Lemma insert_client_eq k r s :
  insert_client k r s =
    match oauth_clients s !! k with
    | Some _ => (Return true, s)
    | None => (Return false, set_clients (insert k r) s)
    end.
Proof. unfold insert_client. simpl. by destruct (oauth_clients s !! k). Qed.

Lemma registerClient_taken client clientId clientSecret date_now s :
  is_Some (oauth_clients s !! clientId) →
  registerClient client clientId clientSecret date_now s
    = (Throw Failed_to_register_client, s).
Proof.
  intros [c Hc]. unfold registerClient, mbind, Async_bind.
  by rewrite insert_client_eq, Hc.
Qed.

Lemma registerClient_free client clientId clientSecret date_now s :
  oauth_clients s !! clientId = None →
  ∃ c, registerClient client clientId clientSecret date_now s
         = (Return c, set_clients (insert clientId (client_info c)) s)
       ∧ client_id c = clientId.
Proof.
  intros Hfree. unfold registerClient, mbind, Async_bind.
  rewrite insert_client_eq, Hfree. eexists (mkClient _ _).
  split; reflexivity.
Qed.

(** No call removes or rewrites a registered client. *)
Lemma serve_keeps_client q s k c :
  oauth_clients s !! k = Some c → oauth_clients (serve q s) !! k = Some c.
Proof.
  intros Hk. destruct q; simpl.
  - by rewrite getClient_eq.
  - destruct (oauth_clients s !! clientId) as [c'|] eqn:Hid.
    + by rewrite registerClient_taken.
    + destruct (registerClient_free client clientId clientSecret date_now s Hid)
        as (c' & -> & _). simpl.
      rewrite lookup_insert_ne; [done|congruence].
  - unfold authorize, mbind, Async_bind, insert_code.
    by repeat case_match; simplify_eq/=.
  - unfold challengeForAuthorizationCode. async. by case_match.
  - rewrite exchangeAuthorizationCode_unfold. unfold redeemCode. async.
    unfold issuePair, mbind, Async_bind, insert_tokens.
    by repeat case_match; simplify_eq/=.
  - unfold exchangeRefreshToken. async.
    unfold issuePair, mbind, Async_bind, insert_tokens.
    by repeat case_match; simplify_eq/=.
  - by rewrite verifyAccessToken_reads.
  - done.
Qed.

Lemma serve_all_keeps_client qs s k c :
  oauth_clients s !! k = Some c → oauth_clients (serve_all qs s) !! k = Some c.
Proof.
  revert s. induction qs as [|q qs IH]; intros s Hk; [done|].
  simpl. by apply IH, serve_keeps_client.
Qed.

(** X1: a client that [registerClient] returned is what [getClient] returns
    for its identifier, right away and after any further calls: the registry
    never loses or changes a client. *)
Theorem register_then_getClient client clientId clientSecret date_now s c s' qs :
  registerClient client clientId clientSecret date_now s = (Return c, s') →
  getClient (client_id c) (serve_all qs s')
    = (Return (Some c), serve_all qs s').
Proof.
  intros Hreg.
  destruct (oauth_clients s !! clientId) as [c'|] eqn:Hid.
  { by rewrite registerClient_taken in Hreg. }
  destruct (registerClient_free client clientId clientSecret date_now s Hid)
    as (c0 & Heq & Hc0).
  rewrite Heq in Hreg. injection Hreg as -> <-.
  rewrite getClient_eq.
  rewrite (serve_all_keeps_client qs _ (client_id c) (client_info c)).
  - by destruct c.
  - simpl. rewrite Hc0. apply lookup_insert_eq.
Qed.

(** X2: [registerClient] never overwrites: when the identifier it drew is
    already registered it fails with "Failed to register client" and leaves the
    store as it was, so the registered client stays; otherwise it returns a
    client with that identifier and the secret drawn, and adds exactly that
    row. *)
Theorem registerClient_cases client clientId clientSecret date_now s :
  (is_Some (oauth_clients s !! clientId) →
   registerClient client clientId clientSecret date_now s
     = (Throw Failed_to_register_client, s))
  ∧ (oauth_clients s !! clientId = None →
     ∃ c, registerClient client clientId clientSecret date_now s
            = (Return c, set_clients (insert clientId (client_info c)) s)
          ∧ client_id c = clientId
          ∧ Client.client_secret (client_info c) = Some clientSecret
          ∧ Client.redirect_uris (client_info c)
            = Registration.redirect_uris client
          ∧ Client.client_secret_expires_at (client_info c) = 0
          ∧ 1000 * Client.client_id_issued_at (client_info c) ≤ date_now
            < 1000 * Client.client_id_issued_at (client_info c) + 1000).
Proof.
  split; [apply registerClient_taken|].
  intros Hfree. unfold registerClient, mbind, Async_bind.
  rewrite insert_client_eq, Hfree. eexists (mkClient _ _).
  split; [reflexivity|]. simpl. repeat split; try done.
  - apply Z.mul_div_le. lia.
  - pose proof (Z.mod_pos_bound date_now 1000 ltac:(lia)).
    pose proof (Z.div_mod date_now 1000 ltac:(lia)). lia.
Qed.

(** ** Authorization codes *)

Lemma references_client_true s c :
  references_client s c = true ↔ is_Some (oauth_clients s !! c).
Proof. unfold references_client. apply bool_decide_eq_true. Qed.

Lemma references_client_false s c :
  references_client s c = false ↔ oauth_clients s !! c = None.
Proof.
  unfold references_client. rewrite bool_decide_eq_false.
  by rewrite eq_None_not_Some.
Qed.

Lemma insert_code_eq k r s :
  insert_code k r s =
    if references_client s (Code.client_id r)
    then match oauth_authorization_codes s !! k with
         | Some _ => (Return true, s)
         | None => (Return false, set_codes (insert k r) s)
         end
    else (Return true, s).
Proof.
  unfold insert_code. simpl.
  by destruct (references_client _ _), (oauth_authorization_codes s !! k).
Qed.

(** [authorize], by cases on the insert and on the redirect URI. *)
Lemma authorize_eq client params code date_now s :
  authorize client params code date_now s =
    if references_client s (client_id client)
       && bool_decide (oauth_authorization_codes s !! code = None)
    then
      (match URL_parse (Params.redirectUri params) with
       | None => Throw Invalid_URL
       | Some u =>
           Return (URL_href
                     match or_null (Params.state params) with
                     | Some state =>
                         searchParams_set "state" state
                           (searchParams_set "code" code u)
                     | None => searchParams_set "code" code u
                     end)
       end,
       set_codes (insert code (code_row_of client params date_now)) s)
    else (Throw Failed_to_store_authorization_code, s).
Proof.
  unfold authorize, mbind, Async_bind. rewrite insert_code_eq. simpl.
  destruct (references_client _ _); [|done]. simpl.
  destruct (oauth_authorization_codes s !! code) eqn:Hk; simpl; [done|].
  by destruct (URL_parse _).
Qed.

Lemma authorize_Return client params code date_now s loc s' :
  authorize client params code date_now s = (Return loc, s') →
  is_Some (oauth_clients s !! client_id client)
  ∧ oauth_authorization_codes s !! code = None
  ∧ s' = set_codes (insert code (code_row_of client params date_now)) s.
Proof.
  rewrite authorize_eq.
  destruct (references_client _ _) eqn:Href; [|done]. simpl.
  case_bool_decide as Hfree; [|done].
  apply references_client_true in Href.
  destruct (URL_parse _); [|done]. by intros [= _ <-].
Qed.

(** X3: [authorize] fails with "Failed to store authorization code" exactly
    when its client is not registered or the code it drew is already a row;
    it then writes nothing, so an issued code is never overwritten. *)
Theorem authorize_storage_failure client params code date_now s :
  ((authorize client params code date_now s).1
     = Throw Failed_to_store_authorization_code
   ↔ oauth_clients s !! client_id client = None
     ∨ is_Some (oauth_authorization_codes s !! code))
  ∧ ((authorize client params code date_now s).1
       = Throw Failed_to_store_authorization_code →
     (authorize client params code date_now s).2 = s).
Proof.
  rewrite authorize_eq.
  destruct (references_client _ _) eqn:Href; simpl.
  - apply references_client_true in Href as Hreg.
    case_bool_decide as Hfree; simpl.
    + split; [|by destruct (URL_parse _)]. split.
      * by destruct (URL_parse _).
      * intros [Hnone|[r Hr]]; [|congruence].
        rewrite Hnone in Hreg. by destruct Hreg.
    + split; [|done]. split; [|done]. intros _. right.
      by apply not_eq_None_Some.
  - apply references_client_false in Href. split; [|done].
    split; [by left|done].
Qed.

Lemma issuePair_succeeds client scopes resource a b now s :
  is_Some (oauth_clients s !! client_id client) →
  oauth_tokens s !! a = None → oauth_tokens s !! b = None → a ≠ b →
  issuePair client scopes resource a b now s =
    (Return (Tokens.mk a "bearer" 3600 b (join_space scopes)),
     set_tokens
       (λ t, <[b := Token.mk refresh (client_id client) (Some scopes)
                      resource (now + 2592000000) false (Some a)]>
               (<[a := Token.mk access (client_id client) (Some scopes)
                        resource (now + 3600000) false (Some b)]> t)) s).
Proof.
  intros Hreg Ha Hb Hne. apply references_client_true in Hreg.
  unfold issuePair, mbind, Async_bind, insert_tokens. simpl.
  rewrite Hreg, Ha. simpl. rewrite lookup_insert_ne by done. by rewrite Hb.
Qed.

Lemma issuePair_fails client scopes resource a b now s :
  a = b ∨ is_Some (oauth_tokens s !! a) ∨ is_Some (oauth_tokens s !! b)
  ∨ oauth_clients s !! client_id client = None →
  issuePair client scopes resource a b now s = (Throw Failed_to_store_tokens, s).
Proof.
  intros Hbad. unfold issuePair, mbind, Async_bind, insert_tokens. simpl.
  destruct (references_client _ _) eqn:Href; simpl; [|done].
  apply references_client_true in Href.
  destruct (oauth_tokens s !! a) eqn:Ha; [done|].
  destruct (decide (a = b)) as [->|Hne].
  { by rewrite lookup_insert_eq. }
  rewrite lookup_insert_ne by done.
  destruct (oauth_tokens s !! b) eqn:Hb; [done|].
  destruct Hbad as [?|[[? ?]|[[? ?]|Hnone]]]; try done.
  rewrite Hnone in Href. by destruct Href.
Qed.

Lemma challenge_found client code s r :
  oauth_authorization_codes s !! code = Some r →
  Code.client_id r = client_id client →
  challengeForAuthorizationCode client code s
    = (Return (Code.code_challenge r), s).
Proof.
  intros Hr Hc. unfold challengeForAuthorizationCode. async.
  assert (single (rows_where (oauth_authorization_codes s) code
            (λ r, bool_decide (Code.client_id r = client_id client)))
          = Some r) as ->; [|done].
  apply single_rows_where_Some. split; [done|]. by apply bool_decide_eq_true.
Qed.

Lemma challenge_not_found client code s :
  (∀ r, oauth_authorization_codes s !! code = Some r →
        Code.client_id r ≠ client_id client) →
  challengeForAuthorizationCode client code s
    = (Throw Authorization_code_not_found, s).
Proof.
  intros Hno. unfold challengeForAuthorizationCode. async.
  destruct (single _) as [r|] eqn:Hsel; [|done].
  apply single_rows_where_Some in Hsel as [Hr Hc].
  apply bool_decide_eq_true in Hc. by destruct (Hno r).
Qed.

(** X4: after [authorize] has returned, [challengeForAuthorizationCode]
    gives the client the challenge of the request, and gives any client with
    another identifier "Authorization code not found"; in both cases it
    leaves the code in place. *)
Theorem authorize_then_challenge client params code date_now s loc s' :
  authorize client params code date_now s = (Return loc, s') →
  challengeForAuthorizationCode client code s'
    = (Return (Params.codeChallenge params), s')
  ∧ (∀ client2, client_id client2 ≠ client_id client →
       challengeForAuthorizationCode client2 code s'
         = (Throw Authorization_code_not_found, s')).
Proof.
  intros Hauth. apply authorize_Return in Hauth as (_ & _ & ->).
  assert (oauth_authorization_codes
            (set_codes (insert code (code_row_of client params date_now)) s)
          !! code = Some (code_row_of client params date_now)) as Hrow.
  { simpl. apply lookup_insert_eq. }
  split.
  - by rewrite (challenge_found _ _ _ _ Hrow).
  - intros client2 Hne. apply challenge_not_found.
    intros r Hr. rewrite Hrow in Hr. injection Hr as <-. simpl. congruence.
Qed.

(** X5: [challengeForAuthorizationCode] does not look at the expiry and
    consumes nothing: for a code of the client whose expiry is before the
    clock reading, it still returns the challenge and leaves the row, while
    [exchangeAuthorizationCode] at that reading deletes the row and fails with
    "Authorization code expired"; after that exchange the challenge is "not
    found" too. *)
Theorem challenge_ignores_expiry client code s r verifier uri res now a b now' :
  oauth_authorization_codes s !! code = Some r →
  Code.client_id r = client_id client →
  Code.expires_at r < now →
  challengeForAuthorizationCode client code s
    = (Return (Code.code_challenge r), s)
  ∧ exchangeAuthorizationCode client code verifier uri res now a b now' s
    = (Throw Authorization_code_expired, set_codes (delete code) s)
  ∧ challengeForAuthorizationCode client code
      (exchangeAuthorizationCode client code verifier uri res now a b now' s).2
    = (Throw Authorization_code_not_found, set_codes (delete code) s).
Proof.
  intros Hr Hc Hnow. split; [by apply challenge_found|].
  rewrite exchange_expired with (r := r) by done. split; [done|].
  simpl. apply challenge_not_found. intros r' Hr'. simpl in Hr'.
  by rewrite lookup_delete_eq in Hr'.
Qed.

Lemma exchange_succeeds client code verifier uri res now a b now' s r :
  oauth_authorization_codes s !! code = Some r →
  Code.client_id r = client_id client →
  now ≤ Code.expires_at r →
  is_Some (oauth_clients s !! client_id client) →
  oauth_tokens s !! a = None → oauth_tokens s !! b = None → a ≠ b →
  exchangeAuthorizationCode client code verifier uri res now a b now' s =
    (Return (Tokens.mk a "bearer" 3600 b
               (join_space (or_empty (Code.scopes r)))),
     set_tokens
       (λ t, <[b := Token.mk refresh (client_id client)
                      (Some (or_empty (Code.scopes r)))
                      (or_null (Code.resource r)) (now' + 2592000000) false
                      (Some a)]>
               (<[a := Token.mk access (client_id client)
                        (Some (or_empty (Code.scopes r)))
                        (or_null (Code.resource r)) (now' + 3600000) false
                        (Some b)]> t))
       (set_codes (delete code) s)).
Proof.
  intros Hr Hc Hnow Hreg Ha Hb Hne.
  rewrite exchange_unexpired with (r := r) by done.
  by apply issuePair_succeeds.
Qed.

(** X6: the whole grant.  After [authorize] has returned for a request, an
    exchange of the code by the same client, read on the clock no later than
    600 000 ms after the authorization and drawing two distinct token values
    that are in no row, returns: the response lists the scopes of the request
    (none when the request had none), the access row carries them together
    with the serialised resource of the request, and the code is gone. *)
Theorem authorize_then_exchange `{!WebURLLaws} client params code date_now s
    loc s1 verifier uri res now a b now' :
  authorize client params code date_now s = (Return loc, s1) →
  now ≤ date_now + 600000 →
  oauth_tokens s !! a = None → oauth_tokens s !! b = None → a ≠ b →
  ∃ s2,
    exchangeAuthorizationCode client code verifier uri res now a b now' s1
      = (Return (Tokens.mk a "bearer" 3600 b
                   (join_space (or_empty (Params.scopes params)))), s2)
    ∧ oauth_tokens s2 !! a
      = Some (Token.mk access (client_id client)
                (Some (or_empty (Params.scopes params)))
                (URL_href <$> Params.resource params) (now' + 3600000) false
                (Some b))
    ∧ oauth_tokens s2 !! b
      = Some (Token.mk refresh (client_id client)
                (Some (or_empty (Params.scopes params)))
                (URL_href <$> Params.resource params) (now' + 2592000000)
                false (Some a))
    ∧ oauth_authorization_codes s2 !! code = None.
Proof.
  intros Hauth Hnow Ha Hb Hne.
  apply authorize_Return in Hauth as (Hreg & _ & ->).
  eexists. split.
  - apply exchange_succeeds with (r := code_row_of client params date_now);
      first [done | simpl; apply lookup_insert_eq | simpl; lia].
  - assert (or_null (Code.resource (code_row_of client params date_now))
            = (URL_href <$> Params.resource params)) as ->.
    { simpl. destruct (Params.resource params) as [u|]; [|done]. simpl.
      pose proof (href_nonempty u). by destruct (URL_href u). }
    simpl. rewrite lookup_insert_ne by done. rewrite !lookup_insert_eq.
    repeat split. apply lookup_delete_eq.
Qed.

(** X7: [authorize] stores the code before it parses the redirect URI.  For a
    registered client and an unused code, a redirect URI that is no URL makes
    the call fail with the [TypeError] of [new URL], yet the row is written,
    and the client can exchange the code as if the call had returned. *)
Theorem authorize_invalid_redirect_keeps_code client params code date_now s
    verifier uri res now a b now' :
  is_Some (oauth_clients s !! client_id client) →
  oauth_authorization_codes s !! code = None →
  URL_parse (Params.redirectUri params) = None →
  now ≤ date_now + 600000 →
  oauth_tokens s !! a = None → oauth_tokens s !! b = None → a ≠ b →
  authorize client params code date_now s
    = (Throw Invalid_URL,
       set_codes (insert code (code_row_of client params date_now)) s)
  ∧ (exchangeAuthorizationCode client code verifier uri res now a b now'
       (authorize client params code date_now s).2).1
    = Return (Tokens.mk a "bearer" 3600 b
                (join_space (or_empty (Params.scopes params)))).
Proof.
  intros Hreg Hfree Hurl Hnow Ha Hb Hne.
  assert (authorize client params code date_now s
          = (Throw Invalid_URL,
             set_codes (insert code (code_row_of client params date_now)) s))
    as Heq.
  { rewrite authorize_eq. apply references_client_true in Hreg.
    rewrite Hreg, Hurl. simpl. by rewrite bool_decide_eq_true_2. }
  split; [done|]. rewrite Heq. simpl.
  rewrite exchange_succeeds with (r := code_row_of client params date_now);
    first [done | simpl; apply lookup_insert_eq | simpl; lia].
Qed.

(** X8: the redirect of [authorize] is the redirect URI of the request,
    parsed, with its [code] parameter set to the code and then, when the
    request has a non-empty state, its [state] parameter set to it.  Its
    scheme, host and path are those of the redirect URI; its [code] parameter
    is the code; its [state] parameter is the state of the request or, without
    one, what the redirect URI has; every other parameter of the redirect URI
    is kept. *)
Theorem authorize_redirect `{!WebURLLaws} `{!WebURLQueryLaws} client params
    code date_now s loc s' :
  authorize client params code date_now s = (Return loc, s') →
  ∃ u0 u, URL_parse (Params.redirectUri params) = Some u0
    ∧ u = match or_null (Params.state params) with
          | Some state =>
              searchParams_set "state" state (searchParams_set "code" code u0)
          | None => searchParams_set "code" code u0
          end
    ∧ loc = URL_href u
    ∧ origin_and_path loc = origin_and_path (URL_href u0)
    ∧ searchParams_get "code" u = Some code
    ∧ searchParams_get "state" u
      = match or_null (Params.state params) with
        | Some state => Some state
        | None => searchParams_get "state" u0
        end
    ∧ (∀ k, k ≠ "code" → k ≠ "state" →
            searchParams_get k u = searchParams_get k u0).
Proof.
  rewrite authorize_eq. destruct (_ && _); [|done].
  destruct (URL_parse _) as [u0|]; [|done]. intros [= <- _].
  exists u0. eexists. split; [done|]. split; [reflexivity|]. split; [done|].
  destruct (or_null (Params.state params)) as [state|].
  - split; [by rewrite !set_keeps_origin_and_path|]. split; [|split].
    + rewrite get_set_ne by done. apply get_set_eq.
    + apply get_set_eq.
    + intros k Hc Hs. rewrite !get_set_ne by done. done.
  - split; [by rewrite set_keeps_origin_and_path|]. split; [|split].
    + apply get_set_eq.
    + by rewrite get_set_ne.
    + intros k Hc Hs. by rewrite get_set_ne.
Qed.

(** X9: the exchange consumes the code before it stores the pair.  When the
    code is found and not expired but the pair cannot be stored, because the
    two values drawn are equal or one of them is already a row, the call fails
    with "Failed to store tokens", no token row is written and the code is
    gone: it cannot be exchanged again. *)
Theorem exchange_storage_failure client code verifier uri res now a b now' s r :
  oauth_authorization_codes s !! code = Some r →
  Code.client_id r = client_id client →
  now ≤ Code.expires_at r →
  a = b ∨ is_Some (oauth_tokens s !! a) ∨ is_Some (oauth_tokens s !! b) →
  exchangeAuthorizationCode client code verifier uri res now a b now' s
    = (Throw Failed_to_store_tokens, set_codes (delete code) s)
  ∧ ∀ client2 verifier2 uri2 res2 now2 a2 b2 now2',
      (exchangeAuthorizationCode client2 code verifier2 uri2 res2 now2 a2 b2
         now2' (set_codes (delete code) s)).1
      = Throw Authorization_code_not_found.
Proof.
  intros Hr Hc Hnow Hbad. split.
  - rewrite exchange_unexpired with (r := r) by done.
    apply issuePair_fails. simpl. tauto.
  - intros. rewrite exchange_not_found; [done|].
    intros r' Hr'. simpl in Hr'. by rewrite lookup_delete_eq in Hr'.
Qed.

(** ** Token rows over time *)

Lemma revoke_revoked r : Token.revoked r = true → Token.revoke r = r.
Proof. destruct r. simpl. by intros ->. Qed.

Lemma challenge_reads client code s :
  (challengeForAuthorizationCode client code s).2 = s.
Proof. unfold challengeForAuthorizationCode. async. by case_match. Qed.

Lemma redeemCode_tokens client code now s :
  oauth_tokens (redeemCode client code now s).2 = oauth_tokens s.
Proof. unfold redeemCode. async. by repeat case_match. Qed.

Lemma redeemCode_clients client code now s :
  oauth_clients (redeemCode client code now s).2 = oauth_clients s.
Proof. unfold redeemCode. async. by repeat case_match. Qed.

Lemma authorize_tokens client params code date_now s :
  oauth_tokens (authorize client params code date_now s).2 = oauth_tokens s.
Proof. rewrite authorize_eq. by destruct (_ && _). Qed.

Lemma registerClient_tokens client clientId clientSecret date_now s :
  oauth_tokens (registerClient client clientId clientSecret date_now s).2
    = oauth_tokens s.
Proof.
  destruct (oauth_clients s !! clientId) as [c|] eqn:Hid.
  - by rewrite registerClient_taken.
  - by destruct (registerClient_free client clientId clientSecret date_now s
                   Hid) as (c & -> & _).
Qed.

Lemma exchange_keeps client code verifier uri res now a b now' s k :
  is_Some (oauth_tokens s !! k) →
  oauth_tokens
    (exchangeAuthorizationCode client code verifier uri res now a b now' s).2
    !! k = oauth_tokens s !! k.
Proof.
  intros Hk. rewrite exchangeAuthorizationCode_unfold.
  pose proof (redeemCode_tokens client code now s) as Ht.
  destruct (redeemCode client code now s) as [[data|e] s1]; simpl in *.
  - rewrite issuePair_keeps; by rewrite Ht.
  - by rewrite Ht.
Qed.

Lemma elem_of_revoked_keys (k token : string) related :
  k ∈ omap id [Some token; related] ↔ k = token ∨ related = Some k.
Proof.
  destruct related as [k'|]; simpl; rewrite !elem_of_cons, ?elem_of_nil.
  - split; [intros [?|[?|[]]]; subst; auto|intros [?|[= ?]]; auto].
  - split; [intros [?|[]]; auto|intros [?|[=]]; auto].
Qed.

(** The token table after a rotation that found its row, whatever becomes of
    the insert. *)
Lemma rotation_revokes client token scopes res now a b now' s r :
  oauth_tokens s !! token = Some r →
  Token.token_type r = refresh →
  Token.client_id r = client_id client →
  Token.revoked r = false →
  now ≤ Token.expires_at r →
  ∀ k x, oauth_tokens s !! k = Some x →
    oauth_tokens
      (exchangeRefreshToken client token scopes res now a b now' s).2 !! k
    = Some (if decide (k = token ∨ Token.related_token r = Some k)
            then Token.revoke x else x).
Proof.
  intros Hr Ht Hc Hv Hnow k x Hk.
  rewrite (exchangeRefreshToken_found _ _ _ _ _ _ _ _ _ r) by done.
  rewrite bool_decide_eq_false_2 by lia.
  set (s1 := set_tokens _ s).
  assert (oauth_tokens s1 !! k
          = Some (if decide (k = token ∨ Token.related_token r = Some k)
                  then Token.revoke x else x)) as Hk1.
  { change (oauth_tokens s1)
      with (foldr (alter Token.revoke) (oauth_tokens s)
              (omap id [Some token; Token.related_token r])).
    rewrite revoke_list_lookup, Hk.
    destruct (decide (k ∈ _)) as [Hin|Hin];
      destruct (decide (k = token ∨ _)) as [Hor|Hor]; try done;
      exfalso; rewrite elem_of_revoked_keys in Hin; tauto. }
  rewrite issuePair_keeps; [done|]. by rewrite Hk1.
Qed.

(** What one call can do to a token row. *)
Lemma serve_token_row q s k r :
  oauth_tokens s !! k = Some r →
  oauth_tokens (serve q s) !! k = Some r
  ∨ oauth_tokens (serve q s) !! k = Some (Token.revoke r).
Proof.
  intros Hk. destruct q; simpl.
  - rewrite getClient_eq. by left.
  - rewrite registerClient_tokens. by left.
  - rewrite authorize_tokens. by left.
  - rewrite challenge_reads. by left.
  - rewrite exchange_keeps by by rewrite Hk. by left.
  - destruct (oauth_tokens s !! refreshToken) as [r0|] eqn:Hr0.
    + destruct (decide (Token.token_type r0 = refresh
                        ∧ Token.client_id r0 = client_id client
                        ∧ Token.revoked r0 = false)) as [(Ht & Hc & Hv)|Hno].
      * destruct (decide (Token.expires_at r0 < now_check)) as [Hlt|Hge].
        -- rewrite (exchangeRefreshToken_found _ _ _ _ _ _ _ _ _ r0) by done.
           rewrite bool_decide_eq_true_2 by done. by left.
        -- rewrite (rotation_revokes _ _ _ _ _ _ _ _ _ r0) with (x := r)
             by (done || lia).
           case_decide; [by right|by left].
      * rewrite exchangeRefreshToken_invalid; [by left|].
        intros r' Hr'. congruence.
    + rewrite exchangeRefreshToken_invalid; [by left|].
      intros r' Hr'. congruence.
  - rewrite verifyAccessToken_reads. by left.
  - rewrite lookup_alter. case_decide; [|by left]. subst k. rewrite Hk. simpl.
    case_bool_decide; [by right|by left].
Qed.

Lemma serve_all_token_row qs s k r :
  oauth_tokens s !! k = Some r →
  oauth_tokens (serve_all qs s) !! k = Some r
  ∨ oauth_tokens (serve_all qs s) !! k = Some (Token.revoke r).
Proof.
  revert s r. induction qs as [|q qs IH]; intros s r Hk; [by left|].
  simpl. destruct (serve_token_row q s k r Hk) as [Hq|Hq].
  - by apply IH.
  - destruct (IH _ _ Hq) as [H'|H']; right; by rewrite H'.
Qed.

Lemma serve_all_revoked_row qs s k r :
  oauth_tokens s !! k = Some r → Token.revoked r = true →
  oauth_tokens (serve_all qs s) !! k = Some r.
Proof.
  intros Hk Hrev. destruct (serve_all_token_row qs s k r Hk) as [H'|H'];
    [done|]. by rewrite revoke_revoked in H'.
Qed.

(** X10: no call deletes a token row or changes anything in it but the
    [revoked] flag, and the flag only ever goes from false to true: after any
    calls, a row is as it was or as it was with [revoked] set, and a revoked
    row is exactly as it was. *)
Theorem token_rows_persist qs s k r :
  oauth_tokens s !! k = Some r →
  (oauth_tokens (serve_all qs s) !! k = Some r
   ∨ oauth_tokens (serve_all qs s) !! k = Some (Token.revoke r))
  ∧ (Token.revoked r = true → oauth_tokens (serve_all qs s) !! k = Some r).
Proof.
  intros Hk. split.
  - by apply serve_all_token_row.
  - intros Hrev. by apply serve_all_revoked_row.
Qed.

(** A revoked row is of no use, now and after any calls. *)
Lemma revoked_row_useless qs s k r :
  oauth_tokens s !! k = Some r → Token.revoked r = true →
  (∀ now, verifyAccessToken k now (serve_all qs s)
            = (Throw Invalid_access_token, serve_all qs s))
  ∧ (∀ client scopes res now a b now',
       exchangeRefreshToken client k scopes res now a b now' (serve_all qs s)
         = (Throw Invalid_refresh_token, serve_all qs s)).
Proof.
  intros Hk Hrev. pose proof (serve_all_revoked_row qs s k r Hk Hrev) as Hk'.
  split; intros.
  - apply verifyAccessToken_invalid. intros r' Hr' [_ Hv]. congruence.
  - apply exchangeRefreshToken_invalid. intros r' Hr' (_ & _ & Hv). congruence.
Qed.

(** X11: a rotation that found its row leaves the old pair of no use, whether
    or not it could store the new one: from then on and after any further
    calls, presenting the old refresh token again fails with "Invalid refresh
    token" for every client, and verifying the access token the old row names
    fails with "Invalid access token" at every clock reading. *)
Theorem rotation_invalidates_old_pair client token scopes res now a b now' s r
    k old qs :
  oauth_tokens s !! token = Some r →
  Token.token_type r = refresh →
  Token.client_id r = client_id client →
  Token.revoked r = false →
  now ≤ Token.expires_at r →
  Token.related_token r = Some k →
  oauth_tokens s !! k = Some old →
  let s' :=
    serve_all qs
      (exchangeRefreshToken client token scopes res now a b now' s).2 in
  (∀ client2 scopes2 res2 now2 a2 b2 now2',
     exchangeRefreshToken client2 token scopes2 res2 now2 a2 b2 now2' s'
       = (Throw Invalid_refresh_token, s'))
  ∧ (∀ now2, verifyAccessToken k now2 s' = (Throw Invalid_access_token, s')).
Proof.
  intros Hr Ht Hc Hv Hnow Hrel Hk s'.
  pose proof (rotation_revokes client token scopes res now a b now' s r
                Hr Ht Hc Hv Hnow) as Hrows.
  pose proof (Hrows token r Hr) as Hr'. rewrite decide_True in Hr' by auto.
  pose proof (Hrows k old Hk) as Hk'. rewrite decide_True in Hk' by auto.
  split.
  - intros. by apply (revoked_row_useless qs _ token (Token.revoke r)).
  - intros. by apply (revoked_row_useless qs _ k (Token.revoke old)).
Qed.

(** X12: once the client that owns a token has revoked it, the token is of no
    use, right away and after any further calls: verification fails with
    "Invalid access token" and rotation with "Invalid refresh token". *)
Theorem revoke_then_useless client token s r qs :
  oauth_tokens s !! token = Some r →
  Token.client_id r = client_id client →
  let s' := serve_all qs (revokeToken client token s).2 in
  (∀ now, verifyAccessToken token now s' = (Throw Invalid_access_token, s'))
  ∧ (∀ client2 scopes res now a b now',
       exchangeRefreshToken client2 token scopes res now a b now' s'
         = (Throw Invalid_refresh_token, s')).
Proof.
  intros Hr Hc s'.
  by apply (revoked_row_useless qs _ token (Token.revoke r));
    [apply revokeToken_revokes|].
Qed.

(** ** Pairs in use *)

Lemma issuePair_registered client scopes resource a b now s resp s' :
  issuePair client scopes resource a b now s = (Return resp, s') →
  is_Some (oauth_clients s !! client_id client).
Proof.
  intros Hpair. destruct (oauth_clients s !! client_id client) eqn:Hreg;
    [by eexists|].
  rewrite issuePair_fails in Hpair; [done|]. auto.
Qed.

(** The store a returning exchange leaves. *)
Lemma exchange_Return_store client code verifier uri res now a b now' s resp s' :
  exchangeAuthorizationCode client code verifier uri res now a b now' s
    = (Return resp, s') →
  is_Some (oauth_clients s' !! client_id client)
  ∧ (∃ sc rs,
       oauth_tokens s' !! a
         = Some (Token.mk access (client_id client) (Some sc) rs
                   (now' + 3600000) false (Some b))
       ∧ oauth_tokens s' !! b
         = Some (Token.mk refresh (client_id client) (Some sc) rs
                   (now' + 2592000000) false (Some a))).
Proof.
  intros Hex. apply exchange_Return in Hex as (data & _ & _ & _ & Hpair).
  apply issuePair_registered in Hpair as Hreg.
  apply issuePair_Return in Hpair as Hs'. destruct Hs' as (_ & _ & _ & _ & Hs').
  apply issuePair_rows in Hpair as (Ha & Hb & _).
  split; [by rewrite Hs'|]. eauto.
Qed.

Lemma revoke_list_None (t : gmap string Token.row) ks k :
  foldr (alter Token.revoke) t ks !! k = None ↔ t !! k = None.
Proof.
  rewrite revoke_list_lookup. case_decide; [|done].
  by destruct (t !! k).
Qed.

Lemma rotation_succeeds client token scopes res now a b now' s r :
  oauth_tokens s !! token = Some r →
  Token.token_type r = refresh →
  Token.client_id r = client_id client →
  Token.revoked r = false →
  now ≤ Token.expires_at r →
  is_Some (oauth_clients s !! client_id client) →
  oauth_tokens s !! a = None → oauth_tokens s !! b = None → a ≠ b →
  (exchangeRefreshToken client token scopes res now a b now' s).1
    = Return (Tokens.mk a "bearer" 3600 b
                (join_space match scopes with
                            | Some scopes => scopes
                            | None => or_empty (Token.scopes r)
                            end)).
Proof.
  intros Hr Ht Hc Hv Hnow Hreg Ha Hb Hne.
  rewrite (exchangeRefreshToken_found _ _ _ _ _ _ _ _ _ r) by done.
  rewrite bool_decide_eq_false_2 by lia.
  rewrite issuePair_succeeds; try done.
  - change (foldr (alter Token.revoke) (oauth_tokens s)
              (omap id [Some token; Token.related_token r]) !! a = None).
    by apply revoke_list_None.
  - change (foldr (alter Token.revoke) (oauth_tokens s)
              (omap id [Some token; Token.related_token r]) !! b = None).
    by apply revoke_list_None.
Qed.

(** X13: the two values of a pair are not interchangeable and the refresh
    token is bound to its client.  After a returning exchange, the refresh
    token value fails verification with "Invalid access token", the access
    token value fails rotation with "Invalid refresh token", and so does the
    refresh token value in the hands of a client with another identifier;
    none of these attempts writes anything. *)
Theorem pair_values_misused client code verifier uri res now a b now' s resp s' :
  exchangeAuthorizationCode client code verifier uri res now a b now' s
    = (Return resp, s') →
  (∀ t, verifyAccessToken b t s' = (Throw Invalid_access_token, s'))
  ∧ (∀ client2 scopes2 res2 t a2 b2 t',
       exchangeRefreshToken client2 a scopes2 res2 t a2 b2 t' s'
         = (Throw Invalid_refresh_token, s'))
  ∧ (∀ client2 scopes2 res2 t a2 b2 t',
       client_id client2 ≠ client_id client →
       exchangeRefreshToken client2 b scopes2 res2 t a2 b2 t' s'
         = (Throw Invalid_refresh_token, s')).
Proof.
  intros Hex. apply exchange_Return_store in Hex as (_ & sc & rs & Ha & Hb).
  split; [|split]; intros.
  - apply verifyAccessToken_invalid. intros r Hr [Ht _].
    rewrite Hb in Hr. by injection Hr as <-.
  - apply exchangeRefreshToken_invalid. intros r Hr (Ht & _).
    rewrite Ha in Hr. by injection Hr as <-.
  - apply exchangeRefreshToken_invalid. intros r Hr (_ & Hc & _).
    rewrite Hb in Hr. injection Hr as <-. simpl in Hc. congruence.
Qed.

(** X14: the lifetimes of a pair.  After a returning exchange whose mint read
    the clock at [now'], verification of the access token fails with "Access
    token expired" at every reading later than [now' + 3 600 000]; the client's
    rotation of the refresh token fails with "Refresh token expired", and
    revokes nothing, at every reading later than [now' + 2 592 000 000]; and
    up to that reading, so also long after the access token has expired, the
    rotation returns whenever it draws two distinct values that are in no
    row. *)
Theorem pair_lifetimes client code verifier uri res now a b now' s resp s' :
  exchangeAuthorizationCode client code verifier uri res now a b now' s
    = (Return resp, s') →
  (∀ t, now' + 3600000 < t →
        verifyAccessToken a t s' = (Throw Access_token_expired, s'))
  ∧ (∀ scopes2 res2 t a2 b2 t', now' + 2592000000 < t →
       exchangeRefreshToken client b scopes2 res2 t a2 b2 t' s'
         = (Throw Refresh_token_expired, s'))
  ∧ (∀ scopes2 res2 t a2 b2 t', t ≤ now' + 2592000000 →
       oauth_tokens s' !! a2 = None → oauth_tokens s' !! b2 = None → a2 ≠ b2 →
       ∃ resp2,
         (exchangeRefreshToken client b scopes2 res2 t a2 b2 t' s').1
           = Return resp2
         ∧ Tokens.access_token resp2 = a2 ∧ Tokens.refresh_token resp2 = b2).
Proof.
  intros Hex. apply exchange_Return_store in Hex as (Hreg & sc & rs & Ha & Hb).
  split; [|split]; intros.
  - rewrite (verifyAccessToken_found _ _ _ _ Ha) by done. simpl.
    by rewrite bool_decide_eq_true_2.
  - rewrite (exchangeRefreshToken_found _ _ _ _ _ _ _ _ _ _ Hb) by done.
    simpl. by rewrite bool_decide_eq_true_2.
  - eexists. split; [by apply (rotation_succeeds _ _ _ _ _ _ _ _ _ _ Hb)|done].
Qed.

(** X15: round trip through a rotation.  When a rotation returns on a store
    written by the provider, the new access token verifies, up to one hour
    after the clock reading of the mint, as the rotating client with the
    scopes asked for, or with those of the presented refresh token when the
    call asked for none. *)
Theorem rotate_then_verify client token scopes res now a b now' s r resp s' t :
  store_ok s →
  oauth_tokens s !! token = Some r →
  Token.token_type r = refresh →
  Token.client_id r = client_id client →
  Token.revoked r = false →
  exchangeRefreshToken client token scopes res now a b now' s
    = (Return resp, s') →
  t ≤ now' + 3600000 →
  ∃ info, verifyAccessToken (Tokens.access_token resp) t s' = (Return info, s')
    ∧ AuthInfo.clientId info = client_id client
    ∧ Some (AuthInfo.scopes info)
      = match scopes with
        | Some scopes => Some scopes
        | None => Token.scopes r
        end
    ∧ join_space (AuthInfo.scopes info) = Tokens.scope resp.
Proof.
  intros [_ Htokens] Hr Ht Hc Hv Hrot Hnow.
  apply (map_Forall_lookup_1 _ _ _ _ Htokens) in Hr as Hok.
  destruct Hok as [[sc Hsc] Hres].
  rewrite (exchangeRefreshToken_found _ _ _ _ _ _ _ _ _ r) in Hrot by done.
  case_bool_decide; [done|].
  apply issuePair_rows in Hrot as (Ha & _ & ->). simpl.
  rewrite (verifyAccessToken_found _ _ _ _ Ha) by done. simpl.
  rewrite bool_decide_eq_false_2 by lia.
  rewrite (or_null_ok (Token.resource r)) by done.
  rewrite or_null_ok by done. rewrite Hsc.
  destruct (Token.resource r) as [x|]; simpl.
  - destruct Hres as [_ [u ->]]. eexists. split; [done|]. simpl.
    by destruct scopes.
  - eexists. split; [done|]. simpl. by destruct scopes.
Qed.

(** X16: a rotation revokes before it stores.  When the presented refresh
    token is found and not expired but the new pair cannot be stored, because
    the two values drawn are equal or one of them is already a row, the call
    fails with "Failed to store tokens", adds no row, and has revoked the
    presented token all the same: the client is left without a refresh
    token. *)
Theorem rotation_storage_failure client token scopes res now a b now' s r :
  oauth_tokens s !! token = Some r →
  Token.token_type r = refresh →
  Token.client_id r = client_id client →
  Token.revoked r = false →
  now ≤ Token.expires_at r →
  a = b ∨ is_Some (oauth_tokens s !! a) ∨ is_Some (oauth_tokens s !! b) →
  let s' := (exchangeRefreshToken client token scopes res now a b now' s).2 in
  (exchangeRefreshToken client token scopes res now a b now' s).1
    = Throw Failed_to_store_tokens
  ∧ oauth_tokens s' !! token = Some (Token.revoke r)
  ∧ (∀ k, oauth_tokens s !! k = None → oauth_tokens s' !! k = None)
  ∧ (∀ scopes2 res2 now2 a2 b2 now2',
       exchangeRefreshToken client token scopes2 res2 now2 a2 b2 now2' s'
         = (Throw Invalid_refresh_token, s')).
Proof.
  intros Hr Ht Hc Hv Hnow Hbad s'.
  pose proof (rotation_revokes client token scopes res now a b now' s r
                Hr Ht Hc Hv Hnow token r Hr) as Hrow.
  rewrite decide_True in Hrow by auto. fold s' in Hrow.
  assert (exchangeRefreshToken client token scopes res now a b now' s
          = (Throw Failed_to_store_tokens,
             set_tokens
               (λ t, foldr (alter Token.revoke) t
                       (omap id [Some token; Token.related_token r])) s))
    as Heq.
  { rewrite (exchangeRefreshToken_found _ _ _ _ _ _ _ _ _ r) by done.
    rewrite bool_decide_eq_false_2 by lia. apply issuePair_fails.
    change (a = b
            ∨ is_Some (foldr (alter Token.revoke) (oauth_tokens s)
                         (omap id [Some token; Token.related_token r]) !! a)
            ∨ is_Some (foldr (alter Token.revoke) (oauth_tokens s)
                         (omap id [Some token; Token.related_token r]) !! b)
            ∨ oauth_clients s !! client_id client = None).
    rewrite <- !not_eq_None_Some, !revoke_list_None, !not_eq_None_Some.
    tauto. }
  split; [by rewrite Heq|]. split; [done|]. split.
  - intros k Hk. unfold s'. rewrite Heq.
    change (foldr (alter Token.revoke) (oauth_tokens s)
              (omap id [Some token; Token.related_token r]) !! k = None).
    by apply revoke_list_None.
  - intros. apply exchangeRefreshToken_invalid.
    intros r' Hr' (_ & _ & Hv'). rewrite Hrow in Hr'. by injection Hr' as <-.
Qed.

(** ** Invariants of the stores the provider reaches *)

Lemma sibling_revoke_l r r' : sibling r r' → sibling (Token.revoke r) r'.
Proof. done. Qed.

Lemma sibling_revoke_r r r' : sibling r r' → sibling r (Token.revoke r').
Proof. done. Qed.

Lemma paired_revoked_from t t' :
  revoked_from t t' → paired_table t → paired_table t'.
Proof.
  intros Hrev Hp k r' Hk'.
  assert (∃ r, t !! k = Some r ∧ (r' = r ∨ r' = Token.revoke r)) as (r & Hk & Hr').
  { destruct (Hrev k) as [Heq|(r & Hk & Hk2)].
    - exists r'. split; [congruence|by left].
    - exists r. split; [done|]. right. congruence. }
  destruct (Hp k r Hk) as (k2 & r2 & Hrel & Hne & Hk2 & Hback & Hsib).
  assert (∃ r2', t' !! k2 = Some r2' ∧ (r2' = r2 ∨ r2' = Token.revoke r2))
    as (r2' & Hk2' & Hr2').
  { destruct (Hrev k2) as [Heq|(x & Hx & Hx')].
    - exists r2. split; [congruence|by left].
    - exists (Token.revoke x). split; [done|]. right. congruence. }
  exists k2, r2'.
  destruct Hr' as [->| ->], Hr2' as [->| ->];
    (split; [exact Hrel|]; split; [exact Hne|]; split; [exact Hk2'|];
     split; [exact Hback|exact Hsib]).
Qed.

Lemma paired_mint t a b ra rb :
  paired_table t → t !! a = None → t !! b = None → a ≠ b →
  Token.related_token ra = Some b → Token.related_token rb = Some a →
  sibling ra rb → sibling rb ra →
  paired_table (<[b := rb]> (<[a := ra]> t)).
Proof.
  intros Hp Ha Hb Hne Hra Hrb Hab Hba k r Hk.
  destruct (decide (k = b)) as [->|Hkb].
  { rewrite lookup_insert_eq in Hk. injection Hk as <-.
    exists a, ra. split; [done|]. split; [done|]. split; [|done].
    rewrite lookup_insert_ne by done. apply lookup_insert_eq. }
  rewrite lookup_insert_ne in Hk by done.
  destruct (decide (k = a)) as [->|Hka].
  { rewrite lookup_insert_eq in Hk. injection Hk as <-.
    exists b, rb. split; [done|]. split; [done|]. split; [|done].
    apply lookup_insert_eq. }
  rewrite lookup_insert_ne in Hk by done.
  destruct (Hp k r Hk) as (k2 & r2 & Hrel & Hne2 & Hk2 & Hback & Hsib).
  exists k2, r2. split; [done|]. split; [done|]. split; [|done].
  rewrite !lookup_insert_ne by congruence. done.
Qed.

Lemma issuePair_paired client scopes resource a b now s :
  paired s → paired (issuePair client scopes resource a b now s).2.
Proof.
  intros Hp. unfold paired, issuePair, mbind, Async_bind.
  match goal with |- context [insert_tokens ?rows s] =>
    destruct (insert_tokens_outcome rows s) as [(t' & -> & Hins)| ->]
  end; [|done].
  apply insert_rows_two in Hins as (Ha & Hb & Hne & ->). simpl.
  apply paired_mint; try done.
  - repeat split. simpl. lia.
  - repeat split. simpl. lia.
Qed.

Lemma serve_paired q s : paired s → paired (serve q s).
Proof.
  intros Hp. destruct q; simpl.
  - by rewrite getClient_eq.
  - unfold paired. by rewrite registerClient_tokens.
  - unfold paired. by rewrite authorize_tokens.
  - by rewrite challenge_reads.
  - rewrite exchangeAuthorizationCode_unfold.
    pose proof (redeemCode_tokens client authorizationCode now_check s) as Ht.
    destruct (redeemCode client authorizationCode now_check s)
      as [[data|e] s1]; simpl in *.
    + apply issuePair_paired. unfold paired. by rewrite Ht.
    + unfold paired. by rewrite Ht.
  - destruct (oauth_tokens s !! refreshToken) as [r0|] eqn:Hr0.
    + destruct (decide (Token.token_type r0 = refresh
                        ∧ Token.client_id r0 = client_id client
                        ∧ Token.revoked r0 = false)) as [(Ht & Hc & Hv)|Hno].
      * rewrite (exchangeRefreshToken_found _ _ _ _ _ _ _ _ _ r0) by done.
        case_bool_decide; [done|]. apply issuePair_paired.
        apply (paired_revoked_from (oauth_tokens s)); [|done].
        intros k.
        change (foldr (alter Token.revoke) (oauth_tokens s)
                  (omap id [Some refreshToken; Token.related_token r0]) !! k
                = oauth_tokens s !! k
                ∨ ∃ r, oauth_tokens s !! k = Some r
                    ∧ foldr (alter Token.revoke) (oauth_tokens s)
                        (omap id [Some refreshToken; Token.related_token r0])
                      !! k = Some (Token.revoke r)).
        rewrite revoke_list_lookup. case_decide; [|by left].
        destruct (oauth_tokens s !! k) as [x|]; [right; eauto|by left].
      * rewrite exchangeRefreshToken_invalid; [done|].
        intros r' Hr'. congruence.
    + rewrite exchangeRefreshToken_invalid; [done|]. intros r' Hr'. congruence.
  - by rewrite verifyAccessToken_reads.
  - apply (paired_revoked_from (oauth_tokens s)); [|done].
    intros k. simpl. rewrite lookup_alter. case_decide; [|by left]. subst k.
    destruct (oauth_tokens s !! token) as [x|]; [|by left]. simpl.
    case_bool_decide; [right; eauto|by left].
Qed.

(** X17: tokens live in pairs.  In every store the provider reaches from
    empty tables, each token row names in [related_token] another row, of the
    other kind, that names it back and has the same client, scopes and
    resource, the refresh row expiring 2 588 400 000 ms (thirty days less one
    hour) after the access row. *)
Theorem reachable_paired qs : paired (serve_all qs empty_store).
Proof.
  assert (∀ s, paired s → paired (serve_all qs s)) as Hall.
  { induction qs as [|q qs IH]; intros s Hs; [done|].
    simpl. by apply IH, serve_paired. }
  apply Hall. intros k r Hk. simpl in Hk. by rewrite lookup_empty in Hk.
Qed.

Lemma issuePair_Throw client scopes resource a b now s e s' :
  issuePair client scopes resource a b now s = (Throw e, s') → s' = s.
Proof.
  unfold issuePair, mbind, Async_bind.
  match goal with |- context [insert_tokens ?rows s] =>
    destruct (insert_tokens_outcome rows s) as [(t' & -> & _)| ->]
  end; [done|]. by intros [= _ <-].
Qed.

Lemma issuePair_owned client scopes resource a b now s :
  owned s → owned (issuePair client scopes resource a b now s).2.
Proof.
  intros [Hcodes Htokens].
  destruct (issuePair client scopes resource a b now s) as [[resp|e] s']
    eqn:Hpair; simpl.
  - apply issuePair_registered in Hpair as Hreg.
    apply issuePair_Return in Hpair as (_ & _ & _ & _ & ->).
    split; [done|]. simpl.
    apply map_Forall_insert_2; [done|]. by apply map_Forall_insert_2.
  - by apply issuePair_Throw in Hpair as ->.
Qed.

Lemma revoke_list_Forall (P : Token.row → Prop) (t : gmap string Token.row) ks :
  (∀ r, P r → P (Token.revoke r)) →
  map_Forall (λ _, P) t →
  map_Forall (λ _, P) (foldr (alter Token.revoke) t ks).
Proof.
  intros HP Ht k r. rewrite revoke_list_lookup. case_decide; [|apply Ht].
  destruct (t !! k) as [r'|] eqn:Hk; [|done]. intros [= <-].
  apply HP, (Ht k r' Hk).
Qed.

Lemma serve_owned q s : owned s → owned (serve q s).
Proof.
  intros Ho. destruct q; simpl.
  - by rewrite getClient_eq.
  - destruct (oauth_clients s !! clientId) as [c|] eqn:Hid.
    + by rewrite registerClient_taken.
    + destruct (registerClient_free client clientId clientSecret date_now s Hid)
        as (c & -> & _). destruct Ho as [Hcodes Htokens].
      split; intros k r Hk; simpl; rewrite lookup_insert_is_Some';
        right; [apply (Hcodes k r Hk)|apply (Htokens k r Hk)].
  - rewrite authorize_eq.
    destruct (references_client _ _) eqn:Href; [|done]. simpl.
    case_bool_decide; [|done]. apply references_client_true in Href.
    destruct Ho as [Hcodes Htokens]. split; [|done]. simpl.
    by apply map_Forall_insert_2.
  - by rewrite challenge_reads.
  - rewrite exchangeAuthorizationCode_unfold.
    assert (owned (redeemCode client authorizationCode now_check s).2) as Hred.
    { destruct Ho as [Hcodes Htokens]. unfold redeemCode. async.
      repeat case_match; try done; split; try done;
        by apply map_Forall_delete. }
    destruct (redeemCode client authorizationCode now_check s)
      as [[data|e] s1]; simpl in *; [|done].
    by apply issuePair_owned.
  - destruct (oauth_tokens s !! refreshToken) as [r0|] eqn:Hr0.
    + destruct (decide (Token.token_type r0 = refresh
                        ∧ Token.client_id r0 = client_id client
                        ∧ Token.revoked r0 = false)) as [(Ht & Hc & Hv)|Hno].
      * rewrite (exchangeRefreshToken_found _ _ _ _ _ _ _ _ _ r0) by done.
        case_bool_decide; [done|]. apply issuePair_owned.
        destruct Ho as [Hcodes Htokens]. split; [done|].
        by apply (revoke_list_Forall
                    (λ r, is_Some (oauth_clients s !! Token.client_id r))).
      * rewrite exchangeRefreshToken_invalid; [done|].
        intros r' Hr'. congruence.
    + rewrite exchangeRefreshToken_invalid; [done|]. intros r' Hr'. congruence.
  - by rewrite verifyAccessToken_reads.
  - destruct Ho as [Hcodes Htokens]. split; [done|].
    simpl. intros k r. rewrite lookup_alter.
    case_decide; [|apply Htokens]. subst k.
    destruct (oauth_tokens s !! token) as [r'|] eqn:Hk; [|done].
    intros [= <-]. case_bool_decide; apply (Htokens _ _ Hk).
Qed.

Lemma reachable_owned qs : owned (serve_all qs empty_store).
Proof.
  assert (∀ s, owned s → owned (serve_all qs s)) as Hall.
  { induction qs as [|q qs IH]; intros s Hs; [done|].
    simpl. by apply IH, serve_owned. }
  apply Hall. split; apply map_Forall_empty.
Qed.

(** X18: on the stores the provider reaches from empty tables the foreign
    keys never fail: every code and token row belongs to a registered client,
    so an exchange of a code of the client that is not expired, and a
    rotation of a refresh token of the client that is neither revoked nor
    expired, return whenever they draw two distinct values that are in no
    row. *)
Theorem reachable_grants_return qs client a b :
  let s := serve_all qs empty_store in
  oauth_tokens s !! a = None → oauth_tokens s !! b = None → a ≠ b →
  owned s
  ∧ (∀ code r verifier uri res now now',
       oauth_authorization_codes s !! code = Some r →
       Code.client_id r = client_id client →
       now ≤ Code.expires_at r →
       (exchangeAuthorizationCode client code verifier uri res now a b now' s).1
         = Return (Tokens.mk a "bearer" 3600 b
                     (join_space (or_empty (Code.scopes r)))))
  ∧ (∀ token r scopes res now now',
       oauth_tokens s !! token = Some r →
       Token.token_type r = refresh →
       Token.client_id r = client_id client →
       Token.revoked r = false →
       now ≤ Token.expires_at r →
       ∃ resp,
         (exchangeRefreshToken client token scopes res now a b now' s).1
           = Return resp
         ∧ Tokens.access_token resp = a ∧ Tokens.refresh_token resp = b).
Proof.
  intros s Ha Hb Hne. pose proof (reachable_owned qs) as Ho. fold s in Ho.
  split; [done|]. destruct Ho as [Hcodes Htokens]. split.
  - intros code r verifier uri res now now' Hr Hc Hnow.
    rewrite exchange_succeeds with (r := r); try done.
    rewrite <- Hc. apply (Hcodes code r Hr).
  - intros token r scopes res now now' Hr Ht Hc Hv Hnow.
    eexists. split; [apply rotation_succeeds with (r := r); try done|done].
    rewrite <- Hc. apply (Htokens token r Hr).
Qed.

(** ** Who can consume a code *)

Lemma serve_keeps_code q s code r :
  redeems q ≠ Some (Code.client_id r, code) →
  oauth_authorization_codes s !! code = Some r →
  oauth_authorization_codes (serve q s) !! code = Some r.
Proof.
  intros Hq Hr. destruct q; simpl in *.
  - by rewrite getClient_eq.
  - destruct (oauth_clients s !! clientId) as [c|] eqn:Hid.
    + by rewrite registerClient_taken.
    + by destruct (registerClient_free client clientId clientSecret date_now s
                     Hid) as (c & -> & _).
  - rewrite authorize_eq. destruct (references_client _ _); [|done]. simpl.
    case_bool_decide as Hfree; [|done]. simpl.
    rewrite lookup_insert_ne; [done|]. intros ->. congruence.
  - by rewrite challenge_reads.
  - rewrite exchangeAuthorizationCode_unfold.
    assert (oauth_authorization_codes
              (redeemCode client authorizationCode now_check s).2 !! code
            = Some r) as Hred.
    { destruct (oauth_authorization_codes s !! authorizationCode) as [r0|]
        eqn:Hr0.
      - destruct (decide (Code.client_id r0 = client_id client)) as [Hc|Hc].
        + rewrite (redeemCode_found _ _ _ _ r0) by done. simpl.
          rewrite lookup_delete_ne; [done|]. intros ->. congruence.
        + rewrite redeemCode_not_found; [done|]. intros r' Hr'. congruence.
      - rewrite redeemCode_not_found; [done|]. intros r' Hr'. congruence. }
    destruct (redeemCode client authorizationCode now_check s)
      as [[data|e] s1]; simpl in *; [|done].
    by rewrite issuePair_codes.
  - assert (oauth_authorization_codes
              (exchangeRefreshToken client refreshToken scopes resource
                 now_check newAccessToken newRefreshToken now_mint s).2
            = oauth_authorization_codes s) as ->; [|done].
    unfold exchangeRefreshToken. async.
    repeat case_match; simplify_eq/=; try done.
    all: by rewrite issuePair_codes.
  - by rewrite verifyAccessToken_reads.
  - done.
Qed.

(** X19: only its owner's exchange consumes a code.  Through any calls among
    which there is no exchange of that code by a client with the owner's
    identifier, the row of an issued code stays exactly as it is: a second
    authorization drawing the same code does not overwrite it, and exchanges
    attempted by other clients do not delete it. *)
Theorem code_survives_other_calls qs s code r :
  Forall (λ q, redeems q ≠ Some (Code.client_id r, code)) qs →
  oauth_authorization_codes s !! code = Some r →
  oauth_authorization_codes (serve_all qs s) !! code = Some r.
Proof.
  intros Hqs. revert s. induction Hqs as [|q qs Hq _ IH]; intros s Hr; [done|].
  simpl. by apply IH, serve_keeps_code.
Qed.

End Lifecycle.

(** ** The small platform obeys the laws *)

Lemma get_pair_filter_ne k k' q :
  k ≠ k' →
  SimpleURL.get_pair k' (filter (λ p, negb (String.eqb k p.1)) q)
    = SimpleURL.get_pair k' q.
Proof.
  intros Hne. induction q as [|p q IH]; [done|].
  rewrite filter_cons. simpl.
  destruct (String.eqb_spec k p.1) as [Hk|Hk]; simpl.
  - destruct (String.eqb_spec k' p.1); [congruence|done].
  - by rewrite IH.
Qed.

Lemma get_set_pair_eq k v q :
  SimpleURL.get_pair k (SimpleURL.set_pair k v q) = Some v.
Proof.
  induction q as [|p q IH]; simpl.
  - by rewrite String.eqb_refl.
  - destruct (String.eqb_spec k p.1) as [Hk|Hk]; simpl.
    + by rewrite String.eqb_refl.
    + by destruct (String.eqb_spec k p.1).
Qed.

Lemma get_set_pair_ne k k' v q :
  k ≠ k' →
  SimpleURL.get_pair k' (SimpleURL.set_pair k v q) = SimpleURL.get_pair k' q.
Proof.
  intros Hne. induction q as [|p q IH]; simpl.
  - by destruct (String.eqb_spec k' k).
  - destruct (String.eqb_spec k p.1) as [Hk|Hk]; simpl.
    + destruct (String.eqb_spec k' k); [congruence|].
      destruct (String.eqb_spec k' p.1); [congruence|].
      by apply get_pair_filter_ne.
    + by rewrite IH.
Qed.

Lemma prefix_https x : String.prefix "https://" ("https://" +:+ x) = true.
Proof. by destruct x. Qed.

Lemma SimpleURL_laws : @WebURLLaws SimpleURL.platform.
Proof.
  split; simpl.
  - intros u. unfold SimpleURL.parse, SimpleURL.href.
    by rewrite prefix_https.
  - intros u. done.
  - intros k v u. apply get_set_pair_eq.
  - intros k k' v u Hne. by apply get_set_pair_ne.
Qed.

(** ** The properties at work on the scenario *)

#[local] Existing Instance SimpleURL.platform.

(** The scenario runs as the specification tells it. *)
Lemma scenario_runs :
  Scenario.authorized.1 = Return "https://app.example/cb?code=C1"
  ∧ oauth_authorization_codes Scenario.authorized.2 !! "C1"
    = Some Scenario.code_row
  ∧ Scenario.exchanged.1 = Return (Tokens.mk "A" "bearer" 3600 "R" "read")
  ∧ oauth_authorization_codes Scenario.exchanged.2 !! "C1" = None
  ∧ oauth_tokens Scenario.exchanged.2 !! "A" = Some Scenario.access_row
  ∧ oauth_tokens Scenario.exchanged.2 !! "R" = Some Scenario.refresh_row.
Proof. by vm_compute. Qed.

Lemma scenario_store_ok : store_ok Scenario.authorized.2.
Proof.
  apply (serve_all_store_ok (H := SimpleURL_laws)
           [RegisterClient Scenario.registration "client-1" "secret-1" 500;
            Authorize Scenario.client Scenario.params "C1" 1000] empty_store).
  apply store_ok_empty.
Qed.

(** C1, at the pair of the scenario: the client revokes the access token [A];
    the refresh token [R] of the same pair is still not revoked, and rotating
    it afterwards returns a new pair. *)
Lemma revoke_access_leaves_refresh_usable :
  Token.related_token <$> oauth_tokens Scenario.exchanged.2 !! "A"
    = Some (Some "R")
  ∧ Token.related_token <$> oauth_tokens Scenario.exchanged.2 !! "R"
    = Some (Some "A")
  ∧ Token.revoked
      <$> oauth_tokens (revokeToken Scenario.client "A" Scenario.exchanged.2).2
          !! "A"
    = Some true
  ∧ Token.revoked
      <$> oauth_tokens (revokeToken Scenario.client "A" Scenario.exchanged.2).2
          !! "R"
    = Some false
  ∧ (exchangeRefreshToken Scenario.client "R" None None 5000 "A2" "R2" 5000
       (revokeToken Scenario.client "A" Scenario.exchanged.2).2).1
    = Return (Tokens.mk "A2" "bearer" 3600 "R2" "read").
Proof.
  split; [by vm_compute|]. split; [by vm_compute|]. split; [by vm_compute|].
  split; [|by vm_compute].
  rewrite (revokeToken_spares_sibling Scenario.client "A" Scenario.exchanged.2
             "R"); [by vm_compute|done].
Defined.

(** C2 as the claim states it fails at the instant of expiry: the code [C1]
    expires at 601000, the exchange reads the clock at 601000, so that
    now >= expiresAt, and the exchange returns a token pair instead of failing
    with "Authorization code expired". *)
Lemma exchange_at_expiry_instant :
  oauth_authorization_codes Scenario.authorized.2 !! "C1"
    = Some Scenario.code_row
  ∧ Code.client_id Scenario.code_row = client_id Scenario.client
  ∧ Code.expires_at Scenario.code_row ≤ 601000
  ∧ (exchangeAuthorizationCode Scenario.client "C1" "verifier"
       "https://app.example/cb" None 601000 "A" "R" 601000
       Scenario.authorized.2).1
    = Return (Tokens.mk "A" "bearer" 3600 "R" "read")
  ∧ ¬ fails Expired
        (exchangeAuthorizationCode Scenario.client "C1" "verifier"
           "https://app.example/cb" None 601000 "A" "R" 601000
           Scenario.authorized.2).1.
Proof.
  split; [by vm_compute|]. split; [done|]. split; [by vm_compute|].
  assert ((exchangeAuthorizationCode Scenario.client "C1" "verifier"
             "https://app.example/cb" None 601000 "A" "R" 601000
             Scenario.authorized.2).1
          = Return (Tokens.mk "A" "bearer" 3600 "R" "read")) as Hret
    by by vm_compute.
  split; [done|]. rewrite Hret. by intros (e & [=] & _).
Qed.

(** C2 as amended, on the scenario: at 2000 the code is redeemed. *)
Lemma exchange_cases_on_scenario :
  redeemCode Scenario.client "C1" 2000 Scenario.authorized.2
    = (Return Scenario.code_row, set_codes (delete "C1") Scenario.authorized.2).
Proof.
  destruct (exchangeAuthorizationCode_cases Scenario.client "C1" "verifier"
              "https://app.example/cb" None 2000 "A" "R" 2000
              Scenario.authorized.2) as [_ Hfound].
  destruct (Hfound Scenario.code_row) as [_ Hlive]; [by vm_compute|done|].
  apply Hlive. simpl. lia.
Defined.

(** C3 on the scenario: after the exchange and two later calls, another
    client's exchange of [C1] does not find it. *)
Lemma single_use_on_scenario :
  exchangeAuthorizationCode Scenario.other_client "C1" "v" "u" None 5000 "A2"
    "R2" 5000 (serve_all Scenario.later_calls Scenario.exchanged.2)
  = (Throw Authorization_code_not_found,
     serve_all Scenario.later_calls Scenario.exchanged.2).
Proof.
  apply (authorization_code_single_use Scenario.client "C1" "verifier"
           "https://app.example/cb" None 2000 "A" "R" 2000
           Scenario.authorized.2 Scenario.later_calls).
  - by vm_compute.
  - repeat constructor; done.
Defined.

(** C4 on the scenario: the code issued at 1000 expires at 601000. *)
Lemma authorize_on_scenario :
  oauth_authorization_codes Scenario.registered.2 !! "C1" = None
  ∧ (∃ row, Scenario.authorized.2
             = set_codes (insert "C1" row) Scenario.registered.2
       ∧ oauth_authorization_codes Scenario.authorized.2 !! "C1" = Some row
       ∧ Code.expires_at row = 1000 + 600 * 1000
       ∧ Code.client_id row = "client-1"
       ∧ Code.redirect_uri row = "https://app.example/cb"
       ∧ Code.code_challenge row = "abc"
       ∧ Code.scopes row = Some ["read"]
       ∧ Code.state row = None
       ∧ Code.resource row = None)
  ∧ (∃ u, "https://app.example/cb?code=C1" = URL_href u
       ∧ searchParams_get "code" u = Some "C1").
Proof.
  apply (authorize_issues_code (H := SimpleURL_laws) Scenario.client
           Scenario.params "C1" 1000 Scenario.registered.2
           "https://app.example/cb?code=C1" Scenario.authorized.2).
  by vm_compute.
Defined.

Lemma scenario_exchanged_ok : store_ok Scenario.exchanged.2.
Proof.
  apply (serve_store_ok (H := SimpleURL_laws)
           (ExchangeAuthorizationCode Scenario.client "C1" "verifier"
              "https://app.example/cb" None 2000 "A" "R" 2000)
           Scenario.authorized.2).
  apply scenario_store_ok.
Qed.

(** C5 on a grant of two scopes: the client is authorized for [read] and
    [write] with the code [C5] and exchanges it at 2000; the response lists
    the two scopes with one space between them, and the two rows are as the
    claim says. *)
Lemma pair_on_scenario :
  Cases.exchanged_two.1
    = Return (Tokens.mk "A" "bearer" 3600 "R" "read write")
  ∧ Tokens.scope (Tokens.mk "A" "bearer" 3600 "R" "read write")
    = "read" +:+ " " +:+ "write"
  ∧ oauth_tokens Cases.exchanged_two.2 !! "A"
    = Some (Token.mk access "client-1" (Some ["read"; "write"]) None
              (2000 + 3600000) false (Some "R"))
  ∧ oauth_tokens Cases.exchanged_two.2 !! "R"
    = Some (Token.mk refresh "client-1" (Some ["read"; "write"]) None
              (2000 + 2592000000) false (Some "A")).
Proof.
  assert (Cases.exchanged_two
          = (Return (Tokens.mk "A" "bearer" 3600 "R" "read write"),
             Cases.exchanged_two.2)) as Hrun by by vm_compute.
  destruct (exchangeAuthorizationCode_issues_pair Scenario.client "C5"
              "verifier" "https://app.example/cb" None 2000 "A" "R" 2000
              Cases.authorized_two.2
              (Tokens.mk "A" "bearer" 3600 "R" "read write")
              Cases.exchanged_two.2 Hrun)
    as (data & Hdata & _ & _ & Ha & Hb & _ & _ & _ & _ & Hmany).
  assert (data = Cases.code_row_two) as ->.
  { assert (oauth_authorization_codes Cases.authorized_two.2 !! "C5"
            = Some Cases.code_row_two) as Hrow by by vm_compute.
    congruence. }
  split; [by rewrite Hrun|]. split; [exact (Hmany "read" "write" [] eq_refl)|].
  split; [exact Ha|exact Hb].
Defined.

(** C6 on the scenario: the client rotates [R] at 5000 and asks for the scopes
    [read] and [write]; the rows of [R] and [A] have [revoked] set and are
    otherwise as they were, the new pair carries the scopes asked for and the
    response lists them with one space between them. *)
Lemma rotation_on_scenario :
  let s' :=
    (exchangeRefreshToken Scenario.client "R" (Some ["read"; "write"]) None
       5000 "A2" "R2" 5000 Scenario.exchanged.2).2 in
  oauth_tokens s' !! "R"
    = Some (Token.mk refresh "client-1" (Some ["read"]) None 2592002000 true
              (Some "A"))
  ∧ oauth_tokens s' !! "A"
    = Some (Token.mk access "client-1" (Some ["read"]) None 3602000 true
              (Some "R"))
  ∧ (Token.revoked <$> oauth_tokens s' !! "R") = Some true
  ∧ (Token.revoked <$> oauth_tokens s' !! "A") = Some true
  ∧ oauth_tokens s' !! "A2"
    = Some (Token.mk access "client-1" (Some ["read"; "write"]) None
              (5000 + 3600000) false (Some "R2"))
  ∧ oauth_tokens s' !! "R2"
    = Some (Token.mk refresh "client-1" (Some ["read"; "write"]) None
              (5000 + 2592000000) false (Some "A2"))
  ∧ (exchangeRefreshToken Scenario.client "R" (Some ["read"; "write"]) None
       5000 "A2" "R2" 5000 Scenario.exchanged.2).1
    = Return (Tokens.mk "A2" "bearer" 3600 "R2" "read write").
Proof.
  destruct (exchangeRefreshToken_rotates Scenario.client "R"
              (Some ["read"; "write"]) None 5000 "A2" "R2" 5000
              Scenario.exchanged.2) as [_ Hfound].
  destruct (Hfound Scenario.refresh_row) as [_ Hlive];
    [by vm_compute|done..|].
  destruct Hlive as (Hold & Holdflag & Hrelated & Hnew); [simpl; lia|].
  destruct (Hrelated "A" Scenario.access_row) as [Hsibling Hsiblingflag];
    [done|by vm_compute|].
  assert ((exchangeRefreshToken Scenario.client "R" (Some ["read"; "write"])
             None 5000 "A2" "R2" 5000 Scenario.exchanged.2).1
          = Return (Tokens.mk "A2" "bearer" 3600 "R2" "read write")) as Hrun
    by by vm_compute.
  destruct (Hnew _ Hrun scenario_exchanged_ok) as (Ha & Hb & _).
  split; [exact Hold|]. split; [exact Hsibling|]. split; [exact Holdflag|].
  split; [exact Hsiblingflag|]. split; [exact Ha|]. split; [exact Hb|].
  exact Hrun.
Defined.

(** C7 on the scenario: [A] is verified at 3000. *)
Lemma verify_on_scenario :
  (verifyAccessToken "A" 3000 Scenario.exchanged.2).2 = Scenario.exchanged.2
  ∧ ∃ info,
      (verifyAccessToken "A" 3000 Scenario.exchanged.2).1 = Return info
      ∧ AuthInfo.clientId info = "client-1"
      ∧ Some (AuthInfo.scopes info) = Some ["read"]
      ∧ AuthInfo.expiresAt info = 3602.
Proof.
  destruct (verifyAccessToken_cases "A" 3000 Scenario.exchanged.2)
    as (Hreads & _ & Hfound).
  split; [exact Hreads|].
  destruct (Hfound Scenario.access_row) as [_ Hlive]; [by vm_compute|done..|].
  destruct Hlive as (info & Hret & _ & Hclient & Hscopes & Hexp & _);
    [simpl; lia|apply scenario_exchanged_ok|].
  exists info. repeat split; [exact Hret|exact Hclient|exact Hscopes|].
  rewrite Hexp. by vm_compute.
Defined.

(** C8 on the scenario: [A] is verified at the very instant of its expiry. *)
Lemma issue_then_verify_on_scenario :
  ∃ data info,
    oauth_authorization_codes Scenario.authorized.2 !! "C1" = Some data
    ∧ verifyAccessToken "A" 3602000 Scenario.exchanged.2
      = (Return info, Scenario.exchanged.2)
    ∧ AuthInfo.clientId info = "client-1"
    ∧ Some (AuthInfo.scopes info) = Code.scopes data
    ∧ join_space (AuthInfo.scopes info) = "read".
Proof.
  apply (issue_then_verify Scenario.client "C1" "verifier"
           "https://app.example/cb" None 2000 "A" "R" 2000
           Scenario.authorized.2 (Tokens.mk "A" "bearer" 3600 "R" "read")
           Scenario.exchanged.2 3602000).
  - apply scenario_store_ok.
  - by vm_compute.
  - lia.
Defined.

(** C9 on the scenario: revoking a token nobody holds, and revoking [A] as
    another client, change nothing. *)
Lemma revoke_on_scenario :
  (revokeToken Scenario.client "unknown" Scenario.exchanged.2).2
    = Scenario.exchanged.2
  ∧ (revokeToken Scenario.other_client "A" Scenario.exchanged.2).2
    = Scenario.exchanged.2.
Proof.
  split.
  - destruct (revokeToken_silent_idempotent Scenario.client "unknown"
                Scenario.exchanged.2) as (_ & Hnone & _).
    apply Hnone. by vm_compute.
  - destruct (revokeToken_silent_idempotent Scenario.other_client "A"
                Scenario.exchanged.2) as (_ & _ & Hother & _).
    apply (Hother Scenario.access_row); [by vm_compute|done].
Defined.

(** C10 on the scenario: a wrong verifier, another redirect URI and a
    resource change nothing in the exchange. *)
Lemma exchange_ignores_on_scenario :
  exchangeAuthorizationCode Scenario.client "C1" "verifier"
    "https://app.example/cb" None 2000 "A" "R" 2000 Scenario.authorized.2
  = exchangeAuthorizationCode Scenario.client "C1" "not the verifier"
      "https://evil.example/" (Some (SimpleURL.mk "other.example" [])) 2000
      "A" "R" 2000 Scenario.authorized.2.
Proof.
  apply (exchange_ignores_verifier_uri_resource Scenario.client "C1" 2000 2000
           Scenario.authorized.2).
Defined.

(** ** The further properties at work on the scenario *)

(** X1 on the scenario: the registered client is found after an
    authorization. *)
Lemma register_then_getClient_on_scenario :
  getClient "client-1"
    (serve_all [Authorize Scenario.client Scenario.params "C1" 1000]
       Scenario.registered.2)
  = (Return (Some Scenario.client),
     serve_all [Authorize Scenario.client Scenario.params "C1" 1000]
       Scenario.registered.2).
Proof.
  apply (register_then_getClient Scenario.registration "client-1" "secret-1"
           500 empty_store Scenario.client Scenario.registered.2).
  by vm_compute.
Defined.

(** X2 on the scenario: a second registration that draws [client-1] again
    fails and changes nothing. *)
Lemma registerClient_twice_on_scenario :
  registerClient Scenario.registration "client-1" "secret-2" 9000
    Scenario.registered.2
  = (Throw Failed_to_register_client, Scenario.registered.2).
Proof.
  apply (registerClient_cases Scenario.registration "client-1" "secret-2" 9000
           Scenario.registered.2).
  exists (client_info Scenario.client). by vm_compute.
Defined.

(** X3 on the scenario: an authorization for a client that is not registered
    fails and writes nothing. *)
Lemma authorize_unregistered_on_scenario :
  (authorize Scenario.other_client Scenario.params "C7" 1000
     Scenario.registered.2).1 = Throw Failed_to_store_authorization_code
  ∧ (authorize Scenario.other_client Scenario.params "C7" 1000
       Scenario.registered.2).2 = Scenario.registered.2.
Proof.
  destruct (authorize_storage_failure Scenario.other_client Scenario.params
              "C7" 1000 Scenario.registered.2) as [Hiff Hsame].
  assert ((authorize Scenario.other_client Scenario.params "C7" 1000
             Scenario.registered.2).1
          = Throw Failed_to_store_authorization_code) as Hfail.
  { apply Hiff. left. by vm_compute. }
  split; [exact Hfail|exact (Hsame Hfail)].
Defined.

(** X4 on the scenario: the challenge of [C1] is [abc] for the client and not
    found for another client. *)
Lemma challenge_on_scenario :
  challengeForAuthorizationCode Scenario.client "C1" Scenario.authorized.2
    = (Return "abc", Scenario.authorized.2)
  ∧ challengeForAuthorizationCode Scenario.other_client "C1"
      Scenario.authorized.2
    = (Throw Authorization_code_not_found, Scenario.authorized.2).
Proof.
  destruct (authorize_then_challenge Scenario.client Scenario.params "C1" 1000
              Scenario.registered.2 "https://app.example/cb?code=C1"
              Scenario.authorized.2) as [Hown Hother]; [by vm_compute|].
  split; [exact Hown|]. by apply Hother.
Defined.

(** X5 on the scenario: at 700000 the code [C1], which expired at 601000,
    still has a challenge, and the exchange removes it. *)
Lemma challenge_of_expired_code_on_scenario :
  challengeForAuthorizationCode Scenario.client "C1" Scenario.authorized.2
    = (Return "abc", Scenario.authorized.2)
  ∧ exchangeAuthorizationCode Scenario.client "C1" "verifier"
      "https://app.example/cb" None 700000 "A" "R" 700000 Scenario.authorized.2
    = (Throw Authorization_code_expired,
       set_codes (delete "C1") Scenario.authorized.2)
  ∧ challengeForAuthorizationCode Scenario.client "C1"
      (exchangeAuthorizationCode Scenario.client "C1" "verifier"
         "https://app.example/cb" None 700000 "A" "R" 700000
         Scenario.authorized.2).2
    = (Throw Authorization_code_not_found,
       set_codes (delete "C1") Scenario.authorized.2).
Proof.
  apply (challenge_ignores_expiry Scenario.client "C1" Scenario.authorized.2
           Scenario.code_row); [by vm_compute|done|simpl; lia].
Defined.

(** X6 on the scenario: the grant of the specification's scenario. *)
Lemma grant_on_scenario :
  ∃ s2,
    exchangeAuthorizationCode Scenario.client "C1" "verifier"
      "https://app.example/cb" None 2000 "A" "R" 2000 Scenario.authorized.2
      = (Return (Tokens.mk "A" "bearer" 3600 "R" "read"), s2)
    ∧ oauth_tokens s2 !! "A"
      = Some (Token.mk access "client-1" (Some ["read"]) None (2000 + 3600000)
                false (Some "R"))
    ∧ oauth_tokens s2 !! "R"
      = Some (Token.mk refresh "client-1" (Some ["read"]) None
                (2000 + 2592000000) false (Some "A"))
    ∧ oauth_authorization_codes s2 !! "C1" = None.
Proof.
  apply (authorize_then_exchange (H := SimpleURL_laws) Scenario.client
           Scenario.params "C1" 1000 Scenario.registered.2
           "https://app.example/cb?code=C1" Scenario.authorized.2);
    [by vm_compute|lia|by vm_compute|by vm_compute|done].
Defined.

(** X7 on the scenario: the request with the redirect URI [not a url] fails,
    and its code [C8] is exchanged all the same. *)
Lemma invalid_redirect_on_scenario :
  authorize Scenario.client Cases.bad_params "C8" 1000 Scenario.registered.2
    = (Throw Invalid_URL,
       set_codes
         (insert "C8" (code_row_of Scenario.client Cases.bad_params 1000))
         Scenario.registered.2)
  ∧ (exchangeAuthorizationCode Scenario.client "C8" "v" "u" None 2000 "A" "R"
       2000
       (authorize Scenario.client Cases.bad_params "C8" 1000
          Scenario.registered.2).2).1
    = Return (Tokens.mk "A" "bearer" 3600 "R" "read").
Proof.
  apply (authorize_invalid_redirect_keeps_code Scenario.client Cases.bad_params
           "C8" 1000 Scenario.registered.2);
    [exists (client_info Scenario.client); by vm_compute
    |by vm_compute|by vm_compute|lia|by vm_compute|by vm_compute|done].
Defined.

Lemma split_on_cons c s : ∃ x xs, QueryURL.split_on c s = x :: xs.
Proof.
  induction s as [|a s IH]; simpl; [by eexists _, _|].
  destruct (Ascii.eqb a c); [by eexists _, _|].
  destruct IH as (x & xs & ->). by eexists _, _.
Qed.

(** The platform that parses the query obeys the laws. *)
Lemma QueryURL_laws : @WebURLLaws QueryURL.platform.
Proof.
  split; simpl.
  - intros u. unfold QueryURL.parse, SimpleURL.href. rewrite prefix_https.
    match goal with |- context [QueryURL.split_on ?c ?s] =>
      destruct (split_on_cons c s) as (x & xs & ->)
    end. by eexists.
  - intros u. done.
  - intros k v u. apply get_set_pair_eq.
  - intros k k' v u Hne. by apply get_set_pair_ne.
Qed.

Lemma origin_and_path_app hp q :
  q = "" ∨ (∃ q', q = String "?" q') →
  origin_and_path (hp +:+ q) = origin_and_path hp.
Proof.
  intros Hq. induction hp as [|a hp IH].
  - by destruct Hq as [->|[q' ->]].
  - change (String a hp +:+ q) with (String a (hp +:+ q)). simpl.
    by rewrite IH.
Qed.

Lemma origin_and_path_href (u : SimpleURL.t) :
  origin_and_path (SimpleURL.href u)
    = "https://" +:+ origin_and_path (SimpleURL.host_path u).
Proof.
  unfold SimpleURL.href.
  change (origin_and_path ("https://" +:+ ?x))
    with ("https://" +:+ origin_and_path x).
  f_equal. apply origin_and_path_app.
  destruct (SimpleURL.query u); [by left|right; by eexists].
Qed.

Lemma QueryURL_query_laws : @WebURLQueryLaws QueryURL.platform.
Proof.
  split. intros k v u.
  change (origin_and_path
            (SimpleURL.href
               (SimpleURL.mk (SimpleURL.host_path u)
                  (SimpleURL.set_pair k v (SimpleURL.query u))))
          = origin_and_path (SimpleURL.href u)).
  by rewrite !origin_and_path_href.
Qed.

(** X8 on a redirect URI with a parameter of its own: the request has the
    state [s-1] and the redirect URI [https://app.example/cb?tenant=t1]; the
    redirect goes to the same host and path, keeps [tenant] and carries the
    code and the state. *)
Lemma redirect_with_state_on_scenario :
  (authorize (H := QueryURL.platform) Scenario.client Cases.tenant_params "C9"
     1000 Scenario.registered.2).1
    = Return "https://app.example/cb?tenant=t1&code=C9&state=s-1"
  ∧ origin_and_path "https://app.example/cb?tenant=t1&code=C9&state=s-1"
    = "https://app.example/cb"
  ∧ ∃ u, "https://app.example/cb?tenant=t1&code=C9&state=s-1"
           = SimpleURL.href u
      ∧ SimpleURL.get_pair "code" (SimpleURL.query u) = Some "C9"
      ∧ SimpleURL.get_pair "state" (SimpleURL.query u) = Some "s-1"
      ∧ SimpleURL.get_pair "tenant" (SimpleURL.query u) = Some "t1".
Proof.
  assert (authorize (H := QueryURL.platform) Scenario.client
            Cases.tenant_params "C9" 1000 Scenario.registered.2
          = (Return "https://app.example/cb?tenant=t1&code=C9&state=s-1",
             (authorize (H := QueryURL.platform) Scenario.client
                Cases.tenant_params "C9" 1000 Scenario.registered.2).2))
    as Hrun by by vm_compute.
  destruct (authorize_redirect (W := QueryURL.platform) (H := QueryURL_laws)
              (H0 := QueryURL_query_laws) Scenario.client Cases.tenant_params
              "C9" 1000 Scenario.registered.2 _ _ Hrun)
    as (u0 & u & Hparse & _ & Hloc & Hpath & Hcode & Hstate & Hother).
  assert (u0 = SimpleURL.mk "app.example/cb" [("tenant", "t1")]) as ->.
  { vm_compute in Hparse. by injection Hparse. }
  split; [by rewrite Hrun|]. split; [rewrite Hpath; by vm_compute|].
  exists u. split; [exact Hloc|]. split; [exact Hcode|].
  split; [exact Hstate|]. exact (Hother "tenant" ltac:(done) ltac:(done)).
Defined.

(** X9 on the scenario: the exchange draws [A] twice. *)
Lemma exchange_collision_on_scenario :
  exchangeAuthorizationCode Scenario.client "C1" "verifier"
    "https://app.example/cb" None 2000 "A" "A" 2000 Scenario.authorized.2
  = (Throw Failed_to_store_tokens, set_codes (delete "C1") Scenario.authorized.2).
Proof.
  apply (exchange_storage_failure Scenario.client "C1" "verifier"
           "https://app.example/cb" None 2000 "A" "A" 2000
           Scenario.authorized.2 Scenario.code_row);
    [by vm_compute|done|simpl; lia|by left].
Defined.

(** X10 on the scenario: after the client has revoked [A] and verified it, the
    row of [A] is the old row with [revoked] set, and the row of [R] is as it
    was. *)
Lemma token_rows_on_scenario :
  (oauth_tokens (serve_all Cases.revoke_calls Scenario.exchanged.2) !! "A"
     = Some Scenario.access_row
   ∨ oauth_tokens (serve_all Cases.revoke_calls Scenario.exchanged.2) !! "A"
     = Some (Token.revoke Scenario.access_row))
  ∧ (Token.revoked Scenario.access_row = true →
     oauth_tokens (serve_all Cases.revoke_calls Scenario.exchanged.2) !! "A"
       = Some Scenario.access_row).
Proof.
  apply (token_rows_persist Cases.revoke_calls Scenario.exchanged.2 "A"
           Scenario.access_row).
  by vm_compute.
Defined.

(** X11 on the scenario: after the rotation of [R], neither [R] nor [A] is of
    use. *)
Lemma old_pair_after_rotation_on_scenario :
  exchangeRefreshToken Scenario.client "R" None None 6000 "A3" "R3" 6000
    Cases.rotated.2
    = (Throw Invalid_refresh_token, Cases.rotated.2)
  ∧ verifyAccessToken "A" 6000 Cases.rotated.2
    = (Throw Invalid_access_token, Cases.rotated.2).
Proof.
  destruct (rotation_invalidates_old_pair Scenario.client "R" None None 5000
              "A2" "R2" 5000 Scenario.exchanged.2 Scenario.refresh_row "A"
              Scenario.access_row [])
    as [Hrotate Hverify];
    [by vm_compute|done|done|done|simpl; lia|done|by vm_compute|].
  split; [apply Hrotate|apply Hverify].
Defined.

(** X12 on the scenario: the client revokes [A]; it no longer verifies. *)
Lemma revoked_access_on_scenario :
  verifyAccessToken "A" 3000
    (revokeToken Scenario.client "A" Scenario.exchanged.2).2
  = (Throw Invalid_access_token,
     (revokeToken Scenario.client "A" Scenario.exchanged.2).2).
Proof.
  destruct (revoke_then_useless Scenario.client "A" Scenario.exchanged.2
              Scenario.access_row []) as [Hverify _];
    [by vm_compute|done|].
  apply Hverify.
Defined.

(** X13 on the scenario: [R] does not verify, [A] does not rotate, and
    another client cannot rotate [R]. *)
Lemma misuse_on_scenario :
  verifyAccessToken "R" 3000 Scenario.exchanged.2
    = (Throw Invalid_access_token, Scenario.exchanged.2)
  ∧ exchangeRefreshToken Scenario.client "A" None None 3000 "A2" "R2" 3000
      Scenario.exchanged.2
    = (Throw Invalid_refresh_token, Scenario.exchanged.2)
  ∧ exchangeRefreshToken Scenario.other_client "R" None None 3000 "A2" "R2"
      3000 Scenario.exchanged.2
    = (Throw Invalid_refresh_token, Scenario.exchanged.2).
Proof.
  destruct (pair_values_misused Scenario.client "C1" "verifier"
              "https://app.example/cb" None 2000 "A" "R" 2000
              Scenario.authorized.2 (Tokens.mk "A" "bearer" 3600 "R" "read")
              Scenario.exchanged.2) as (Hverify & Hkind & Hclient);
    [by vm_compute|].
  split; [apply Hverify|]. split; [apply Hkind|by apply Hclient].
Defined.

(** X14 on the scenario: one millisecond after its hour [A] has expired, and
    at that reading [R] is still rotated. *)
Lemma lifetimes_on_scenario :
  verifyAccessToken "A" 3602001 Scenario.exchanged.2
    = (Throw Access_token_expired, Scenario.exchanged.2)
  ∧ exchangeRefreshToken Scenario.client "R" None None 2592002001 "A2" "R2"
      2592002001 Scenario.exchanged.2
    = (Throw Refresh_token_expired, Scenario.exchanged.2)
  ∧ ∃ resp2,
      (exchangeRefreshToken Scenario.client "R" None None 3602001 "A2" "R2"
         3602001 Scenario.exchanged.2).1 = Return resp2
      ∧ Tokens.access_token resp2 = "A2" ∧ Tokens.refresh_token resp2 = "R2".
Proof.
  destruct (pair_lifetimes Scenario.client "C1" "verifier"
              "https://app.example/cb" None 2000 "A" "R" 2000
              Scenario.authorized.2 (Tokens.mk "A" "bearer" 3600 "R" "read")
              Scenario.exchanged.2) as (Haccess & Hrefresh & Hrotate);
    [by vm_compute|].
  split; [apply Haccess; lia|]. split; [apply Hrefresh; lia|].
  apply Hrotate; [lia|by vm_compute|by vm_compute|done].
Defined.

(** X15 on the scenario: the access token of the rotation verifies with the
    scopes of [R]. *)
Lemma rotate_then_verify_on_scenario :
  ∃ info, verifyAccessToken "A2" 6000 Cases.rotated.2
            = (Return info, Cases.rotated.2)
    ∧ AuthInfo.clientId info = "client-1"
    ∧ Some (AuthInfo.scopes info) = Some ["read"]
    ∧ join_space (AuthInfo.scopes info) = "read".
Proof.
  apply (rotate_then_verify Scenario.client "R" None None 5000 "A2" "R2" 5000
           Scenario.exchanged.2 Scenario.refresh_row
           (Tokens.mk "A2" "bearer" 3600 "R2" "read") Cases.rotated.2 6000);
    [apply scenario_exchanged_ok|by vm_compute|done|done|done|by vm_compute
    |lia].
Defined.

(** X16 on the scenario: a rotation of [R] that draws [A], which is a row,
    fails and leaves [R] revoked. *)
Lemma rotation_collision_on_scenario :
  let s' :=
    (exchangeRefreshToken Scenario.client "R" None None 5000 "A" "R2" 5000
       Scenario.exchanged.2).2 in
  (exchangeRefreshToken Scenario.client "R" None None 5000 "A" "R2" 5000
     Scenario.exchanged.2).1 = Throw Failed_to_store_tokens
  ∧ oauth_tokens s' !! "R" = Some (Token.revoke Scenario.refresh_row)
  ∧ (∀ k, oauth_tokens Scenario.exchanged.2 !! k = None →
          oauth_tokens s' !! k = None)
  ∧ (∀ scopes2 res2 now2 a2 b2 now2',
       exchangeRefreshToken Scenario.client "R" scopes2 res2 now2 a2 b2 now2' s'
         = (Throw Invalid_refresh_token, s')).
Proof.
  apply (rotation_storage_failure Scenario.client "R" None None 5000 "A" "R2"
           5000 Scenario.exchanged.2 Scenario.refresh_row);
    [by vm_compute|done|done|done|simpl; lia|].
  right. left. exists Scenario.access_row. by vm_compute.
Defined.

(** X18 on the scenario: the store in which [C1] is issued is reached by two
    calls, and the exchange of [C1] returns. *)
Lemma reachable_exchange_on_scenario :
  (exchangeAuthorizationCode Scenario.client "C1" "verifier"
     "https://app.example/cb" None 2000 "A" "R" 2000
     (serve_all Cases.calls_to_authorized empty_store)).1
  = Return (Tokens.mk "A" "bearer" 3600 "R" "read").
Proof.
  destruct (reachable_grants_return Cases.calls_to_authorized Scenario.client
              "A" "R") as (_ & Hexchange & _);
    [by vm_compute|by vm_compute|done|].
  apply (Hexchange "C1" Scenario.code_row); [by vm_compute|done|simpl; lia].
Defined.

(** X19 on the scenario: an exchange by another client, a second
    authorization drawing [C1] and a verification leave the row of [C1] as it
    was. *)
Lemma code_survives_on_scenario :
  oauth_authorization_codes
    (serve_all Cases.harmless_calls Scenario.authorized.2) !! "C1"
  = Some Scenario.code_row.
Proof.
  apply (code_survives_other_calls Cases.harmless_calls Scenario.authorized.2
           "C1" Scenario.code_row); [|by vm_compute].
  repeat constructor; simpl; congruence.
Defined.
